(** * Access gating, source normalisation and progress tracking of the player

    A shallow embedding of the pure and state-passing parts of the
    [ShakaPlayer] and [VideoPlayer] components: the stream-kind resolver
    [normalizeType], the [sources] normalisation, the [isLocked] access
    gate, the watch-history progress tracker, the episode-level access
    override, and the protected-URL fetch life cycle.

    Conventions of the embedding:
    - a JavaScript string is a [string] of 8-bit code units (Latin-1);
      an optional string field is an [option string], and the empty
      string is falsy exactly as in JavaScript;
    - a JavaScript number is a binary64 [float] (the kernel's primitive
      floats), so NaN, signed zeros and rounding are the real ones;
    - a plain object used as a string-keyed map is a [gmap string string];
    - React state that the claims are about is threaded explicitly. *)

From Stdlib Require Import String Ascii NArith ZArith Bool Lia.
From Stdlib Require Import Floats.PrimFloat Floats.SpecFloat Floats.FloatOps Floats.FloatAxioms.
From Stdlib Require DecimalString.
From stdpp Require Import base option list gmap strings.

Local Open Scope string_scope.

(* ===================================================================== *)
(** * Part I: definitions                                                  *)
(* ===================================================================== *)

(** ** JavaScript string primitives used by the player *)

Module JS.

(** Truthiness of an optional string: [undefined] and [""] are falsy. *)
Definition truthy (s : option string) : bool :=
  match s with
  | Some (String _ _) => true
  | _ => false
  end.

(** [a || b] on optional strings. *)
Definition or_else (a b : option string) : option string :=
  if truthy a then a else b.

(** [(a || "")]: the string, or the empty string when falsy. *)
Definition or_empty (a : option string) : string :=
  match a with Some s => s | None => "" end.

(** [String.prototype.toLowerCase] on one Latin-1 code unit: A-Z and the
    accented capitals U+00C0-U+00DE (without the multiplication sign
    U+00D7) move up by 32; everything else is unchanged. *)
Definition lower_char (c : ascii) : ascii :=
  let n := N_of_ascii c in
  if ((65 <=? n) && (n <=? 90))%N
     || ((192 <=? n) && (n <=? 222) && negb (n =? 215))%N
  then ascii_of_N (n + 32)
  else c.

Fixpoint toLowerCase (s : string) : string :=
  match s with
  | EmptyString => EmptyString
  | String c s' => String (lower_char c) (toLowerCase s')
  end.

(** White space of [String.prototype.trim] within Latin-1: TAB, LF, VT,
    FF, CR, SPACE and NO-BREAK SPACE. *)
Definition is_space (c : ascii) : bool :=
  let n := N_of_ascii c in
  (((9 <=? n) && (n <=? 13)) || (n =? 32) || (n =? 160))%N.

Fixpoint trimStart (s : string) : string :=
  match s with
  | EmptyString => EmptyString
  | String c s' => if is_space c then trimStart s' else s
  end.

Fixpoint trimEnd (s : string) : string :=
  match s with
  | EmptyString => EmptyString
  | String c s' =>
      match trimEnd s' with
      | EmptyString => if is_space c then EmptyString else String c EmptyString
      | t => String c t
      end
  end.

Definition trim (s : string) : string := trimEnd (trimStart s).

(** [s.endsWith(suf)]. *)
Fixpoint endsWith (s suf : string) : bool :=
  String.eqb s suf
  || match s with
     | EmptyString => false
     | String _ s' => endsWith s' suf
     end.

(** [s.includes(sub)]. *)
Fixpoint includes (s sub : string) : bool :=
  String.prefix sub s
  || match s with
     | EmptyString => false
     | String _ s' => includes s' sub
     end.

(** Template-literal rendering of a non-negative integer. *)
Definition nat_to_string (n : nat) : string :=
  DecimalString.NilZero.string_of_uint (Nat.to_uint n).

End JS.

(** ** Stream kinds and the resolver [normalizeType] *)

(** The literal union ["mp4" | "hls" | "dash" | "embed" | "iframe"]. *)
Inductive StreamType : Set := Mp4 | Hls | Dash | Embed | Iframe.

(** The string a [StreamType] literal denotes. *)
Definition StreamType_name (k : StreamType) : string :=
  match k with
  | Mp4 => "mp4" | Hls => "hls" | Dash => "dash"
  | Embed => "embed" | Iframe => "iframe"
  end.

(** [normalizeType(rawType, url)]: the explicit tag first, then the suffix
    of the URL, then the embed-host substrings, then ["hls"]. *)
Definition normalizeType (rawType url : option string) : StreamType :=
  let t := JS.trim (JS.toLowerCase (JS.or_empty rawType)) in
  if String.eqb t "iframe" || String.eqb t "embed" then Iframe
  else if String.eqb t "mp4" then Mp4
  else if String.eqb t "hls" || String.eqb t "m3u8" then Hls
  else if String.eqb t "dash" then Dash
  else
    let u := JS.toLowerCase (JS.or_empty url) in
    if JS.endsWith u ".m3u8" then Hls
    else if JS.endsWith u ".mpd" then Dash
    else if JS.endsWith u ".mp4" then Mp4
    else if JS.includes u "youtube.com" || JS.includes u "youtu.be"
            || JS.includes u "player." || JS.includes u "embed" then Iframe
    else Hls.

(** ** Access tiers and the access gate [isLocked] *)

(** The literal union ['free' | 'rent' | 'vip']. *)
Inductive AccessType : Set := Free | Rent | Vip.

Definition AccessType_eqb (a b : AccessType) : bool :=
  match a, b with
  | Free, Free | Rent, Rent | Vip, Vip => true
  | _, _ => false
  end.

(** The destructuring default [accessType = 'free'] of [ShakaPlayer]. *)
Definition accessTypeProp (a : option AccessType) : AccessType := default Free a.

(** The [isLocked] memo of [ShakaPlayer], a function of its six
    dependencies. *)
Definition isLocked (subscriptionLoading rentalLoading : bool)
    (accessType : AccessType)
    (excludeFromPlan hasActiveSubscription hasActiveRental : bool) : bool :=
  if subscriptionLoading || rentalLoading || AccessType_eqb accessType Free
  then false
  else if AccessType_eqb accessType Rent && excludeFromPlan
  then negb hasActiveRental
  else if AccessType_eqb accessType Rent && negb excludeFromPlan
  then negb hasActiveSubscription && negb hasActiveRental
  else if AccessType_eqb accessType Vip
  then negb hasActiveSubscription
  else false.

(** ** Source descriptors and the [sources] normalisation *)

(** What a [quality_urls] / [mp4Urls] field can hold at run time. *)
Inductive JsVal : Type :=
| JUndefined
| JNull
| JString (s : string)
| JArray (xs : list string)
| JObject (m : gmap string string).

Definition JsVal_truthy (v : JsVal) : bool :=
  match v with
  | JUndefined | JNull | JString EmptyString => false
  | _ => true
  end.

(** A descriptor as the page hands it to the player ([videoSources]
    entries, read through [source.quality_urls || (source as any).mp4Urls]). *)
Module RawSource.
Record t : Type := mk {
  id : option string;
  server_name : option string;
  source_type : option string;
  url : option string;
  quality_urls : JsVal;
  mp4Urls : JsVal;
  quality : option string;
  is_default : option bool;
  version : option string;
  permission : option string
}.
End RawSource.

(** The [VideoSource] interface of [ShakaPlayer], as the normaliser and
    the protected fetch populate it. *)
Module VideoSource.
Record t : Type := mk {
  id : string;
  server_name : string;
  source_type : string;
  type : StreamType;
  url : option string;
  quality_urls : option (gmap string string);
  quality : option string;
  is_default : option bool;
  version : option string;
  permission : option string
}.
End VideoSource.

(** [videoSources || (src ? [{ id: "default", ... }] : [])]. An empty array
    is truthy, so only an absent [videoSources] reaches the [src] fallback. *)
Definition rawSources (videoSources : option (list RawSource.t))
    (src : option string) (type : StreamType) : list RawSource.t :=
  match videoSources with
  | Some l => l
  | None =>
      if JS.truthy src
      then [ RawSource.mk (Some "default") (Some "Default")
               (Some (StreamType_name type)) src
               JUndefined JUndefined None (Some true) None None ]
      else []
  end.

(** The [qualityUrls] local of the map callback: the first truthy of the
    two fields, kept only when it is a plain object with at least one key
    and without the [_type: 'undefined'] marker. *)
Definition qualityUrls (source : RawSource.t) : option (gmap string string) :=
  let q := if JsVal_truthy (RawSource.quality_urls source)
           then RawSource.quality_urls source
           else RawSource.mp4Urls source in
  match q with
  | JObject m =>
      if (size m =? 0)%nat || bool_decide (m !! "_type" = Some "undefined")
      then None
      else Some m
  | _ => None
  end.

(** The body of [rawSources.map((source, index) => ...)]. *)
Definition normalizeSource (accessType : AccessType) (index : nat)
    (source : RawSource.t) : VideoSource.t :=
  let sourceType :=
    normalizeType (RawSource.source_type source) (RawSource.url source) in
  let isFreeContent := AccessType_eqb accessType Free in
  VideoSource.mk
    (if JS.truthy (RawSource.id source)
     then JS.or_empty (RawSource.id source)
     else "server-" ++ JS.nat_to_string index)
    (if JS.truthy (RawSource.server_name source)
     then JS.or_empty (RawSource.server_name source)
     else "Server " ++ JS.nat_to_string (index + 1))
    (if JS.truthy (RawSource.source_type source)
     then JS.or_empty (RawSource.source_type source)
     else StreamType_name sourceType)
    sourceType
    (if isFreeContent then RawSource.url source else None)
    (if isFreeContent then qualityUrls source else None)
    (RawSource.quality source)
    (RawSource.is_default source)
    (RawSource.version source)
    (RawSource.permission source).

(** The [sources] memo. *)
Definition sources (videoSources : option (list RawSource.t))
    (src : option string) (type : StreamType) (accessType : AccessType)
    : list VideoSource.t :=
  imap (normalizeSource accessType) (rawSources videoSources src type).

(** ** [VideoPlayer]: the episode-level access override *)

Module Episode.
Record t : Type := mk {
  id : string;
  episode_number : nat;
  name : string;
  still_path : option string;
  access : option AccessType
}.
End Episode.

(** [episodes?.find(ep => ep.id === currentEpisodeId)]. *)
Definition currentEpisode (episodes : option (list Episode.t))
    (currentEpisodeId : option string) : option Episode.t :=
  match episodes with
  | Some eps =>
      List.find (fun ep => bool_decide (Some (Episode.id ep) = currentEpisodeId)) eps
  | None => None
  end.

(** [currentEpisode?.access || accessType]; the three tier names are
    non-empty strings, so a present tier is always truthy. *)
Definition effectiveAccessType (episodes : option (list Episode.t))
    (currentEpisodeId : option string) (accessType : option AccessType)
    : option AccessType :=
  match currentEpisode episodes currentEpisodeId with
  | Some ep =>
      match Episode.access ep with
      | Some a => Some a
      | None => accessType
      end
  | None => accessType
  end.

(** The tier [ShakaPlayer] works with when [VideoPlayer] renders it with
    [accessType={effectiveAccessType}]. *)
Definition playerAccessType (episodes : option (list Episode.t))
    (currentEpisodeId : option string) (accessType : option AccessType)
    : AccessType :=
  accessTypeProp (effectiveAccessType episodes currentEpisodeId accessType).

(** ** Progress tracker: the [watch_history] table and [saveProgress] *)

(** The part of [HTMLVideoElement] the tracker and the resume effect read
    and write. *)
Module Video.
Record t : Type := mk {
  currentTime : float;
  duration : float;
  readyState : nat;
  paused : bool
}.
End Video.

(** A row of [watch_history]. The columns read back by the player
    ([progress], [completed]) may be NULL. *)
Module WatchRow.
Record t : Type := mk {
  id : string;
  user_id : string;
  episode_id : option string;
  movie_id : option string;
  progress : option float;
  duration : option float;
  completed : option bool;
  last_watched_at : string
}.
End WatchRow.

(** [!x] on a number: zero of either sign and NaN are falsy. *)
Definition number_falsy (x : float) : bool := is_zero x || is_nan x.

(** [a || null] for an id given to an insert. *)
Definition or_null (a : option string) : option string :=
  if JS.truthy a then a else None.

(** The filter [.eq('user_id', userId).eq(episodeId ? 'episode_id' :
    'movie_id', episodeId || movieId)]; a NULL column never matches. *)
Definition historyMatch (userId : string) (episodeId movieId : option string)
    (r : WatchRow.t) : bool :=
  String.eqb (WatchRow.user_id r) userId
  && (if JS.truthy episodeId
      then bool_decide (WatchRow.episode_id r = episodeId)
      else bool_decide (is_Some (WatchRow.movie_id r)
                        /\ WatchRow.movie_id r = movieId)).

(** [.maybeSingle()]: the row when exactly one matches, otherwise no data. *)
Definition maybeSingle {A : Type} (rows : list A) : option A :=
  match rows with
  | [r] => Some r
  | _ => None
  end.

Definition selectHistory (userId : string) (episodeId movieId : option string)
    (db : list WatchRow.t) : option WatchRow.t :=
  maybeSingle (List.filter (historyMatch userId episodeId movieId) db).

(** [.update({progress, duration, completed, last_watched_at}).eq('id', id)]. *)
Definition updateRow (id : string) (progress duration : float)
    (completed : bool) (now : string) (r : WatchRow.t) : WatchRow.t :=
  if String.eqb (WatchRow.id r) id
  then WatchRow.mk (WatchRow.id r) (WatchRow.user_id r)
         (WatchRow.episode_id r) (WatchRow.movie_id r)
         (Some progress) (Some duration) (Some completed) now
  else r.

(** What the backend supplies around one save: the clock read by
    [new Date().toISOString()], and the primary key and the column default
    of [last_watched_at] given to an inserted row. *)
Record SaveCtx : Type := {
  now : string;
  newId : string;
  defaultTimestamp : string
}.

(** The effect guard [!userId || (!episodeId && !movieId) ||
    !videoRef.current]: whether the 10-second interval (and the teardown
    save) exists at all. *)
Definition trackerActive (userId episodeId movieId : option string)
    (video : option Video.t) : bool :=
  JS.truthy userId && (JS.truthy episodeId || JS.truthy movieId)
  && bool_decide (is_Some video).

(** The [completed] flag computed by [saveProgress]. *)
Definition completedFlag (progress duration : float) : bool :=
  (duration - progress <? 30)%float.

(** [saveProgress], as a transformer of the table. The numbers are kept as
    the element reports them; how the request body encodes a number that
    is not finite is not modelled, and no statement reads the stored
    [duration]. *)
Definition saveProgress (ctx : SaveCtx) (userId : string)
    (episodeId movieId : option string) (video : option Video.t)
    (db : list WatchRow.t) : list WatchRow.t :=
  match video with
  | None => db
  | Some v =>
      if number_falsy (Video.duration v) || is_nan (Video.duration v) then db
      else
        let progress := Video.currentTime v in
        let duration := Video.duration v in
        let completed := completedFlag progress duration in
        match selectHistory userId episodeId movieId db with
        | Some existing =>
            List.map (updateRow (WatchRow.id existing) progress duration
                        completed (now ctx)) db
        | None =>
            db ++ [ WatchRow.mk (newId ctx) userId (or_null episodeId)
                      (or_null movieId) (Some progress) (Some duration)
                      (Some completed) (defaultTimestamp ctx) ]
        end
  end.

(** The two callers of [saveProgress]: the interval and the effect cleanup. *)
Inductive SaveTrigger : Set := Periodic | Teardown.

(** One save attempt of the tracking effect. [mounted] is
    [videoRef.current] when the effect ran, [video] is [videoRef.current]
    when the save runs. *)
Definition progressSave (trigger : SaveTrigger) (ctx : SaveCtx)
    (userId episodeId movieId : option string)
    (mounted video : option Video.t)
    (db : list WatchRow.t) : list WatchRow.t :=
  if trackerActive userId episodeId movieId mounted
  then match trigger with
       | Periodic | Teardown =>
           saveProgress ctx (JS.or_empty userId) episodeId movieId video db
       end
  else db.

(** ** Resuming from saved progress *)

(** [getUser]: the value given to [setSavedProgress], if any
    ([data && !data.completed && data.progress > 10]). A NULL [progress]
    compares as [0], a NULL [completed] is falsy. *)
Definition loadSavedProgress (data : option WatchRow.t) : option float :=
  match data with
  | Some d =>
      if negb (default false (WatchRow.completed d))
         && match WatchRow.progress d with
            | Some p => (10 <? p)%float
            | None => false
            end
      then WatchRow.progress d
      else None
  | None => None
  end.

(** [savedProgress] after [getUser] on a fresh mount (the state starts at
    [null]); the query runs only for a signed-in user and a known content. *)
Definition savedProgressAfterLoad (userId episodeId movieId : option string)
    (db : list WatchRow.t) : option float :=
  match userId with
  | Some u =>
      if JS.truthy episodeId || JS.truthy movieId
      then loadSavedProgress (selectHistory u episodeId movieId db)
      else None
  | None => None
  end.

(** The resume effect: seek once when there is a saved position and the
    element has data for the current position ([readyState >= 2]). *)
Definition resumeEffect (savedProgress : option float) (video : option Video.t)
    : option Video.t * option float :=
  match savedProgress, video with
  | Some p, Some v =>
      if (2 <=? Video.readyState v)%nat
      then (Some (Video.mk p (Video.duration v) (Video.readyState v)
                    (Video.paused v)), None)
      else (video, savedProgress)
  | _, _ => (video, savedProgress)
  end.

(** ** Protected-URL fetch life cycle *)

(** The [source] of a backend answer [{success, source?, error?}]. *)
Module ResultSource.
Record t : Type := mk {
  id : string;
  server_name : string;
  source_type : string;
  url : option string;
  quality_urls : option (gmap string string);
  quality : option string;
  is_default : option bool
}.
End ResultSource.

Record ProtectedResult : Type := {
  success : bool;
  source : option ResultSource.t;
  error : option string
}.

(** Props and hook values the fetch logic closes over. *)
Record PlayerProps : Type := {
  user : bool;
  accessType : AccessType;
  excludeFromPlan : bool;
  hasActiveSubscription : bool;
  hasActiveRental : bool;
  subscriptionLoading : bool;
  rentalLoading : bool
}.

Definition locked (P : PlayerProps) : bool :=
  isLocked (subscriptionLoading P) (rentalLoading P) (accessType P)
    (excludeFromPlan P) (hasActiveSubscription P) (hasActiveRental P).

(** The React state the fetch logic writes, together with the
    [getProtectedUrl] calls that have been issued and not yet answered
    (their [sourceId], oldest first). Quality lists are left out: nothing
    below reads them. *)
Record PlayerState : Type := {
  currentSource : option VideoSource.t;
  protectedSource : option VideoSource.t;
  accessValidated : bool;
  accessError : option string;
  isLoading : bool;
  pending : list string
}.

(** The state of a fresh mount. *)
Definition initialState : PlayerState :=
  {| currentSource := None; protectedSource := None; accessValidated := false;
     accessError := None; isLoading := true; pending := [] |}.

(** [fetchProtectedSource] up to its [await]. *)
Definition fetchProtectedSource_call (P : PlayerProps) (source : VideoSource.t)
    (st : PlayerState) : PlayerState :=
  if negb (user P)
  then {| currentSource := currentSource st;
          protectedSource := protectedSource st;
          accessValidated := accessValidated st;
          accessError := Some "Please log in to watch this content";
          isLoading := isLoading st;
          pending := pending st |}
  else {| currentSource := currentSource st;
          protectedSource := protectedSource st;
          accessValidated := accessValidated st;
          accessError := None;
          isLoading := true;
          pending := pending st ++ [VideoSource.id source] |}.

(** The [validatedSource] object built from a successful answer. *)
Definition validatedSource (r : ResultSource.t) : VideoSource.t :=
  VideoSource.mk (ResultSource.id r) (ResultSource.server_name r)
    (ResultSource.source_type r)
    (normalizeType (Some (ResultSource.source_type r)) (ResultSource.url r))
    (ResultSource.url r) (ResultSource.quality_urls r)
    (ResultSource.quality r) (ResultSource.is_default r) None None.

(** [fetchProtectedSource] after its [await], given the answer. *)
Definition fetchProtectedSource_resume (result : option ProtectedResult)
    (st : PlayerState) : PlayerState :=
  match result with
  | Some {| success := true; source := Some r |} =>
      {| currentSource := currentSource st;
         protectedSource := Some (validatedSource r);
         accessValidated := true;
         accessError := accessError st;
         isLoading := isLoading st;
         pending := pending st |}
  | _ =>
      {| currentSource := currentSource st;
         protectedSource := protectedSource st;
         accessValidated := false;
         accessError :=
           JS.or_else (result ≫= error) (Some "Failed to load video");
         isLoading := isLoading st;
         pending := pending st |}
  end.

(** [handleServerChange], up to the [await] inside it. *)
Definition handleServerChange (P : PlayerProps) (source : VideoSource.t)
    (st : PlayerState) : PlayerState :=
  let st1 := {| currentSource := Some source;
                protectedSource := None;
                accessValidated := false;
                accessError := accessError st;
                isLoading := isLoading st;
                pending := pending st |} in
  let isFreeContent := AccessType_eqb (accessType P) Free in
  if negb isFreeContent && user P then fetchProtectedSource_call P source st1
  else if isFreeContent
  then {| currentSource := Some source;
          protectedSource := Some source;
          accessValidated := true;
          accessError := accessError st;
          isLoading := isLoading st;
          pending := pending st |}
  else st1.

(** The effect "trigger protected URL fetch when current source changes". *)
Definition fetchEffect (P : PlayerProps) (st : PlayerState) : PlayerState :=
  if subscriptionLoading P || rentalLoading P then st
  else
    let isFreeContent := AccessType_eqb (accessType P) Free in
    match currentSource st with
    | None => st
    | Some cs =>
        if negb isFreeContent && negb (locked P) && user P
        then fetchProtectedSource_call P cs st
        else if isFreeContent
        then {| currentSource := currentSource st;
                protectedSource := Some cs;
                accessValidated := true;
                accessError := accessError st;
                isLoading := isLoading st;
                pending := pending st |}
        else if locked P
        then {| currentSource := currentSource st;
                protectedSource := protectedSource st;
                accessValidated := accessValidated st;
                accessError := accessError st;
                isLoading := false;
                pending := pending st |}
        else st
    end.

(** The effect "initialize default source":
    [sources.find(s => s.is_default) || sources[0]]. *)
Definition defaultSource (srcs : list VideoSource.t) : option VideoSource.t :=
  match List.find (fun s => default false (VideoSource.is_default s)) srcs with
  | Some s => Some s
  | None => head srcs
  end.

Definition initDefaultSource (srcs : list VideoSource.t) (st : PlayerState)
    : PlayerState :=
  match defaultSource srcs with
  | Some d =>
      {| currentSource := Some d;
         protectedSource := None;
         accessValidated := false;
         accessError := None;
         isLoading := true;
         pending := pending st |}
  | None => st
  end.

(** What can happen to a mounted player, one event-loop turn at a time. *)
Inductive Event : Type :=
| InitSources (srcs : list VideoSource.t)
| FetchEffect
| ServerChange (source : VideoSource.t)
| Deliver (i : nat) (result : option ProtectedResult).

(** Removing the [i]-th pending call. *)
Definition answered (i : nat) (l : list string) : list string :=
  take i l ++ drop (S i) l.

Definition step (P : PlayerProps) (st : PlayerState) (e : Event) : PlayerState :=
  match e with
  | InitSources srcs => initDefaultSource srcs st
  | FetchEffect => fetchEffect P st
  | ServerChange source => handleServerChange P source st
  | Deliver i result =>
      match pending st !! i with
      | Some _ =>
          fetchProtectedSource_resume result
            {| currentSource := currentSource st;
               protectedSource := protectedSource st;
               accessValidated := accessValidated st;
               accessError := accessError st;
               isLoading := isLoading st;
               pending := answered i (pending st) |}
      | None => st
      end
  end.

Definition run (P : PlayerProps) (st : PlayerState) (evs : list Event)
    : PlayerState :=
  fold_left (step P) evs st.

(** The validated playback source: what the player-initialisation effect
    attaches ([protectedSource] under [accessValidated]). *)
Definition activeSource (st : PlayerState) : option VideoSource.t :=
  if accessValidated st then protectedSource st else None.

(** An event of an ordered, faithful exchange after a selection: the fetch
    effect re-running, or the oldest pending call being answered, a
    successful answer carrying the source that was asked for. *)
Definition in_order_event (st : PlayerState) (e : Event) : bool :=
  match e with
  | FetchEffect => true
  | Deliver 0 result =>
      match pending st, result with
      | h :: _, Some {| success := true; source := Some r |} =>
          String.eqb (ResultSource.id r) h
      | _ :: _, _ => true
      | [], _ => false
      end
  | _ => false
  end.

Fixpoint in_order_run (P : PlayerProps) (st : PlayerState) (evs : list Event)
    : bool :=
  match evs with
  | [] => true
  | e :: es => in_order_event st e && in_order_run P (step P st e) es
  end.

(** ** Vocabulary of the statements about [normalizeType] *)

(** Equality of two tags up to letter case. *)
Definition eq_nocase (s t : string) : Prop :=
  JS.toLowerCase s = JS.toLowerCase t.

Definition has_suffix (s suf : string) : Prop := exists p, s = p ++ suf.

Definition has_substring (s sub : string) : Prop :=
  exists p q, s = p ++ sub ++ q.

(** The tag as the resolver compares it: lower-cased and trimmed. *)
Definition canonicalTag (rawType : option string) : string :=
  JS.trim (JS.toLowerCase (JS.or_empty rawType)).

(** An absent tag, or one that is none of the six known ones. *)
Definition unrecognised (rawType : option string) : Prop :=
  let t := canonicalTag rawType in
  t <> "iframe" /\ t <> "embed" /\ t <> "mp4" /\ t <> "hls" /\ t <> "m3u8"
  /\ t <> "dash".

(** A URL of one of the known embed hosts. *)
Definition embed_host (u : string) : Prop :=
  has_substring u "youtube.com" \/ has_substring u "youtu.be"
  \/ has_substring u "player." \/ has_substring u "embed".

(** The last code unit of a string, used to tell suffixes apart. *)
Fixpoint lastChar (s : string) : option ascii :=
  match s with
  | EmptyString => None
  | String c s' =>
      match s' with
      | EmptyString => Some c
      | String _ _ => lastChar s'
      end
  end.

(** ** Vocabulary of the statements about the progress tracker *)

(** The duration is not known: there is no media element, or its
    [duration] is zero or NaN (NaN is what the element reports before the
    metadata has loaded). *)
Definition durationUnknown (video : option Video.t) : Prop :=
  match video with
  | None => True
  | Some v =>
      is_zero (Video.duration v) = true \/ is_nan (Video.duration v) = true
  end.

(** A row of the given viewer, for the given content (the column the query
    filters on holds the content's id), carrying the given completed
    flag. *)
Definition savedFor (userId : string) (episodeId movieId : option string)
    (completed : bool) (r : WatchRow.t) : Prop :=
  WatchRow.user_id r = userId
  /\ (if JS.truthy episodeId
      then WatchRow.episode_id r = episodeId
      else WatchRow.movie_id r = movieId)
  /\ WatchRow.completed r = Some completed.

(** ** Vocabulary of the statements about the protected fetch *)

(** What an ordered, faithful exchange after selecting [s] preserves: [s]
    stays selected, the newest pending call is the one for [s], and with
    nothing pending a validated source is the one of [s]. *)
Definition settled_on (s : VideoSource.t) (st : PlayerState) : Prop :=
  currentSource st = Some s
  /\ (pending st <> [] -> last (pending st) = Some (VideoSource.id s))
  /\ (pending st = [] ->
      forall p, activeSource st = Some p ->
                VideoSource.id p = VideoSource.id s).

(** A paid title with two servers, watched by a signed-in subscriber. *)
Module Scenario.

Definition viewer : PlayerProps :=
  {| user := true; accessType := Vip; excludeFromPlan := false;
     hasActiveSubscription := true; hasActiveRental := false;
     subscriptionLoading := false; rentalLoading := false |}.

Definition rawA : RawSource.t :=
  RawSource.mk (Some "srv-a") (Some "Server A") (Some "hls")
    (Some "https://origin.example/a/master.m3u8") JUndefined JUndefined
    None (Some true) None None.

Definition rawB : RawSource.t :=
  RawSource.mk (Some "srv-b") (Some "Server B") (Some "mp4")
    (Some "https://origin.example/b/movie.mp4") JUndefined JUndefined
    None (Some false) None None.

Definition serverA : VideoSource.t := normalizeSource Vip 0 rawA.
Definition serverB : VideoSource.t := normalizeSource Vip 1 rawB.

(** The backend's successful answer for a server: the same id, now with a
    signed URL. *)
Definition answerFor (s : VideoSource.t) (signedUrl : string)
    : option ProtectedResult :=
  Some {| success := true;
          source := Some (ResultSource.mk (VideoSource.id s)
                            (VideoSource.server_name s)
                            (VideoSource.source_type s)
                            (Some signedUrl) None None
                            (VideoSource.is_default s));
          error := None |}.

(** The player once mounted: the default server A is selected and its
    protected URL has been requested. *)
Definition mounted : PlayerState :=
  run viewer initialState [InitSources [serverA; serverB]; FetchEffect].

End Scenario.

(** ** Quality maps and the file-URL lookup [getMp4Url] *)

(** A quality map read in enumeration order: the own entries of the
    object, as [Object.keys] / [Object.values] list them. A property read
    [obj[key]] also sees what every plain object inherits from
    [Object.prototype]. *)
Module QualityMap.

Definition t : Type := list (string * string).

(** What [obj[key]] can give: the URL of an own entry, or the function or
    object inherited under that name. *)
Inductive value : Type :=
| Url (u : string)
| Inherited (name : string).

(** The property names of [Object.prototype]. *)
Definition objectPrototype : list string :=
  [ "constructor"; "__defineGetter__"; "__defineSetter__"; "hasOwnProperty";
    "__lookupGetter__"; "__lookupSetter__"; "isPrototypeOf";
    "propertyIsEnumerable"; "toString"; "valueOf"; "__proto__";
    "toLocaleString" ].

Definition inherited (key : string) : bool :=
  List.existsb (String.eqb key) objectPrototype.

(** [obj[key]]: the own entry first, then the prototype. *)
Definition get (o : t) (key : string) : option value :=
  match List.find (fun e => String.eqb (fst e) key) o with
  | Some e => Some (Url (snd e))
  | None => if inherited key then Some (Inherited key) else None
  end.

Definition keys (o : t) : list string := List.map fst o.

Definition values (o : t) : list string := List.map snd o.

End QualityMap.

Definition is_digit (c : ascii) : bool :=
  let n := N_of_ascii c in ((48 <=? n) && (n <=? 57))%N.

(** [s.replace(/[^0-9]/g, "")] (and [s.replace(/\D/g, '')]). *)
Fixpoint digitsOf (s : string) : string :=
  match s with
  | EmptyString => EmptyString
  | String c s' => if is_digit c then String c (digitsOf s') else digitsOf s'
  end.

(** [s.replace(/p$/i, "")]: one trailing [p] or [P] is dropped. *)
Fixpoint stripTrailingP (s : string) : string :=
  match s with
  | EmptyString => EmptyString
  | String c EmptyString =>
      if Ascii.eqb c "p" || Ascii.eqb c "P" then EmptyString else s
  | String c s' => String c (stripTrailingP s')
  end.

(** [findMatchingQualityKey(keys, desired)]. *)
Definition findMatchingQualityKey (keys : list string) (desired : option string)
    : option string :=
  if JS.truthy desired
  then
    let desiredNum := digitsOf (JS.or_empty desired) in
    List.find (fun k => String.eqb (digitsOf k) desiredNum) keys
  else None.

(** A looked-up value when it is truthy: anything but [undefined] and the
    empty string. *)
Definition truthyValue (v : option QualityMap.value)
    : option QualityMap.value :=
  match v with
  | Some (QualityMap.Url EmptyString) => None
  | _ => v
  end.

(** [getMp4Url(mp4Urls, quality)]. *)
Definition getMp4Url (mp4Urls : QualityMap.t) (quality : string)
    : option QualityMap.value :=
  match truthyValue (QualityMap.get mp4Urls quality) with
  | Some u => Some u
  | None =>
      let matchKey :=
        findMatchingQualityKey (QualityMap.keys mp4Urls) (Some quality) in
      match (if JS.truthy matchKey
             then truthyValue (QualityMap.get mp4Urls (JS.or_empty matchKey))
             else None) with
      | Some u => Some u
      | None =>
          let stripped := stripTrailingP quality in
          truthyValue (QualityMap.get mp4Urls stripped)
      end
  end.

(** ** Bandwidth-driven quality choice [selectOptimalQuality] *)

(** A variant track of the adaptive engine; [height] is a pixel count. *)
Module Track.
Record t : Type := mk {
  id : nat;
  height : Z;
  bandwidth : Z
}.
End Track.

(** [Array.prototype.sort(cmp)]: stable; a negative or zero [cmp a b]
    keeps [a] before [b]. *)
Fixpoint insertBy {A : Type} (cmp : A -> A -> Z) (x : A) (l : list A) : list A :=
  match l with
  | [] => [x]
  | y :: ys => if (cmp x y <=? 0)%Z then x :: l else y :: insertBy cmp x ys
  end.

Definition sortBy {A : Type} (cmp : A -> A -> Z) (l : list A) : list A :=
  List.fold_right (insertBy cmp) [] l.

(** The target height for a bandwidth in bits per second. *)
Definition targetHeight (bandwidth : float) : Z :=
  let bandwidthMbps := (bandwidth / 1000000)%float in
  if (5 <=? bandwidthMbps)%float then 1080
  else if (2.5 <=? bandwidthMbps)%float then 720
  else if (1 <=? bandwidthMbps)%float then 480
  else 360.

(** [t.height <= targetHeight * 1.2]. For the four targets the binary64
    product is the whole number 1296, 864, 576 or 432, so on pixel counts
    the test is [5 * height <= 6 * targetHeight]. *)
Definition withinTarget (target : Z) (t : Track.t) : bool :=
  (5 * Track.height t <=? 6 * target)%Z.

(** [selectOptimalQuality(tracks, bandwidth)]. *)
Definition selectOptimalQuality (tracks : list Track.t) (bandwidth : float)
    : option Track.t :=
  match tracks with
  | [] => None
  | _ :: _ =>
      let sortedTracks :=
        sortBy (fun a b => (Track.height b - Track.height a)%Z)
          (List.filter (withinTarget (targetHeight bandwidth)) tracks) in
      match sortedTracks with
      | t :: _ => Some t
      | [] => last tracks
      end
  end.

(** ** Vocabulary of the statements about event sequences *)

(** The event is not a server switch. *)
Definition not_server_change (e : Event) : bool :=
  match e with
  | ServerChange _ => false
  | _ => true
  end.

(** The sources an event carries come from the [sources] memo [srcs]: the
    default-source effect receives the memo, the server menu hands one of
    its entries to [handleServerChange]. *)
Definition event_from_sources (srcs : list VideoSource.t) (e : Event) : Prop :=
  match e with
  | InitSources l => l = srcs
  | ServerChange s => In s srcs
  | _ => True
  end.

(** The sources of the successful answers among the events. *)
Fixpoint answers_of (evs : list Event) : list ResultSource.t :=
  match evs with
  | [] => []
  | Deliver _ (Some {| success := true; source := Some r |}) :: es =>
      r :: answers_of es
  | _ :: es => answers_of es
  end.

(** ** The lock overlay's calls to action *)

(** The "Subscribe to VIP" / "Subscribe VIP" link is rendered. *)
Definition offersSubscribe (accessType : AccessType) (excludeFromPlan : bool)
    : bool :=
  AccessType_eqb accessType Vip
  || (AccessType_eqb accessType Rent && negb excludeFromPlan).

(** The "Rent" button is rendered. *)
Definition offersRent (accessType : AccessType) : bool :=
  AccessType_eqb accessType Rent.

(** ** [VideoPlayer]: what it hands to [ShakaPlayer] *)

(** One entry of [convertedSources]: seven fields are copied, nothing else
    reaches the player. *)
Definition convertedSource (source : RawSource.t) : RawSource.t :=
  RawSource.mk (RawSource.id source) (RawSource.server_name source)
    (RawSource.source_type source) (RawSource.url source)
    (RawSource.quality_urls source) JUndefined
    (RawSource.quality source) (RawSource.is_default source) None None.

(** The [sources] memo of the [ShakaPlayer] that [VideoPlayer] renders
    (no [src], the default [type], the effective access tier). *)
Definition playerSources (videoSources : list RawSource.t)
    (episodes : option (list Episode.t)) (currentEpisodeId : option string)
    (accessType : option AccessType) : list VideoSource.t :=
  sources (Some (List.map convertedSource videoSources)) None Hls
    (playerAccessType episodes currentEpisodeId accessType).




(** ** Skipping: [Math.max] / [Math.min] and the seek targets *)

(** [Math.max(a, b)]: NaN if either is NaN; [+0] counts as larger than
    [-0]. *)
Definition math_max (a b : float) : float :=
  if is_nan a || is_nan b then nan
  else if (a <? b)%float then b
  else if (b <? a)%float then a
  else if get_sign a then b else a.

(** [Math.min(a, b)]: NaN if either is NaN; [-0] counts as smaller than
    [+0]. *)
Definition math_min (a b : float) : float :=
  if is_nan a || is_nan b then nan
  else if (a <? b)%float then a
  else if (b <? a)%float then b
  else if get_sign a then a else b.

(** The value [skipBackward] assigns to [currentTime]. *)
Definition skipBackwardTarget (currentTime : float) : float :=
  math_max 0 (currentTime - 10).

(** The value [skipForward] assigns to [currentTime]; [duration] is the
    player's [duration] state. *)
Definition skipForwardTarget (duration currentTime : float) : float :=
  math_min duration (currentTime + 10).

(** ** Vocabulary of the statements about tags *)

(** A string of white space only. *)
Fixpoint all_space (s : string) : bool :=
  match s with
  | EmptyString => true
  | String c s' => JS.is_space c && all_space s'
  end.

(** ** Initial quality and the file URL that is played *)

(** [qualities.includes(q)]. *)
Definition list_includes (l : list string) (q : string) : bool :=
  List.existsb (String.eqb q) l.

(** The [initialQuality] of the default-source effect, for the sorted
    labels [qualities] of a file source and its declared [quality]. *)
Definition initialQuality (quality : option string) (qualities : list string)
    : string :=
  if JS.truthy quality && list_includes qualities (JS.or_empty quality)
  then JS.or_empty quality
  else if list_includes qualities "720p" then "720p"
  else if (0 <? length qualities)%nat
  then JS.or_empty
         (JS.or_else (qualities !! (length qualities / 2)%nat)
                     (qualities !! 0%nat))
  else "720p".

(** The [qualityUrl] that the player-initialisation effect loads for a
    file source, if any. *)
Definition mp4PlaybackUrl (url : option string)
    (quality_urls : option QualityMap.t) (currentQuality : string)
    : option QualityMap.value :=
  let qualityUrl :=
    match quality_urls with
    | Some q =>
        if (0 <? length (QualityMap.keys q))%nat
        then match getMp4Url q currentQuality with
             | Some u => Some u
             | None => QualityMap.Url <$> head (QualityMap.values q)
             end
        else QualityMap.Url <$> url
    | None => QualityMap.Url <$> url
    end in
  truthyValue qualityUrl.


(** The tag [t] is [tag] up to letter case and surrounding white space. *)
Definition tag_is (t tag : string) : Prop :=
  exists w1 core w2,
    t = w1 ++ core ++ w2
    /\ all_space w1 = true /\ all_space w2 = true
    /\ eq_nocase core tag.

(** The tag is one of the six known ones, up to letter case and
    surrounding white space. *)
Definition known_tag (t : string) : Prop :=
  tag_is t "embed" \/ tag_is t "iframe" \/ tag_is t "mp4"
  \/ tag_is t "hls" \/ tag_is t "m3u8" \/ tag_is t "dash".

(* ===================================================================== *)
(** * Part II: properties                                                  *)
(* ===================================================================== *)

(** ** String primitives meet their specifications *)

Section StringFacts.

Lemma endsWith_spec (s suf : string) :
  JS.endsWith s suf = true <-> has_suffix s suf.
Proof.
  split.
  - induction s as [|c s IH]; cbn [JS.endsWith]; intros H.
    + rewrite orb_false_r in H. apply String.eqb_eq in H.
      exists ""; subst; reflexivity.
    + apply orb_true_iff in H as [H|H].
      * apply String.eqb_eq in H. exists "". rewrite H. reflexivity.
      * destruct (IH H) as [p Hp]. exists (String c p). rewrite Hp. reflexivity.
  - intros [p ->]. induction p as [|c p IH].
    + change ("" ++ suf) with suf.
      destruct suf; cbn [JS.endsWith]; rewrite String.eqb_refl; reflexivity.
    + change (String c p ++ suf) with (String c (p ++ suf)).
      cbn [JS.endsWith]. rewrite IH. apply orb_true_r.
Qed.

Lemma prefix_spec (p s : string) :
  String.prefix p s = true <-> exists q, s = p ++ q.
Proof.
  revert s. induction p as [|a p IH]; intros s.
  - split; [intros _; exists s; reflexivity | intros _; destruct s; reflexivity].
  - destruct s as [|b s]; simpl.
    + split; [discriminate | intros [q Hq]; discriminate].
    + destruct (ascii_dec a b) as [->|Hne].
      * rewrite IH. split; intros [q Hq]; exists q; [rewrite Hq; reflexivity|].
        injection Hq as Hq. exact Hq.
      * split; [discriminate|]. intros [q Hq]. injection Hq as Hab _.
        congruence.
Qed.

Lemma includes_spec (s sub : string) :
  JS.includes s sub = true <-> has_substring s sub.
Proof.
  split.
  - induction s as [|c s IH]; cbn [JS.includes]; intros H.
    + rewrite orb_false_r in H. apply prefix_spec in H as [q Hq].
      exists "", q. exact Hq.
    + apply orb_true_iff in H as [H|H].
      * apply prefix_spec in H as [q Hq]. exists "", q. exact Hq.
      * destruct (IH H) as (p & q & Hpq). exists (String c p), q.
        rewrite Hpq. reflexivity.
  - intros (p & q & ->). induction p as [|c p IH].
    + change ("" ++ sub ++ q) with (sub ++ q).
      assert (Hp : String.prefix sub (sub ++ q) = true)
        by (apply prefix_spec; exists q; reflexivity).
      destruct (sub ++ q); cbn [JS.includes]; rewrite Hp; reflexivity.
    + change (String c p ++ sub ++ q) with (String c (p ++ sub ++ q)).
      cbn [JS.includes]. rewrite IH. apply orb_true_r.
Qed.

End StringFacts.

(** ** The stream-kind resolver *)

Section NormalizeType.

Lemma lastChar_app (p suf : string) :
  suf <> "" -> lastChar (p ++ suf) = lastChar suf.
Proof.
  intros Hne. induction p as [|c p IH]; [reflexivity|].
  change (String c p ++ suf) with (String c (p ++ suf)).
  cbn [lastChar]. rewrite IH.
  destruct (p ++ suf) eqn:E; [|reflexivity].
  destruct p; simpl in E; [contradiction | discriminate].
Qed.

Lemma suffix_lastChar (s a b : string) :
  a <> "" -> b <> "" -> has_suffix s a -> has_suffix s b ->
  lastChar a = lastChar b.
Proof.
  intros Ha Hb [p ->] [q Hq].
  rewrite <- (lastChar_app p a Ha), Hq. apply lastChar_app, Hb.
Qed.

Lemma not_endsWith (s a b : string) :
  a <> "" -> b <> "" -> lastChar a <> lastChar b ->
  has_suffix s a -> JS.endsWith s b = false.
Proof.
  intros Ha Hb Hab Hs. destruct (JS.endsWith s b) eqn:E; [|reflexivity].
  apply endsWith_spec in E. destruct Hab. eauto using suffix_lastChar.
Qed.

(** With a known tag the URL is never looked at. *)
Lemma normalizeType_tag (t tag : string) (url : option string) :
  eq_nocase t tag ->
  normalizeType (Some t) url = normalizeType (Some tag) url.
Proof.
  unfold normalizeType, eq_nocase. cbn [JS.or_empty]. intros ->. reflexivity.
Qed.

(** Without a known tag the result is decided by the URL alone. *)
Lemma normalizeType_fallback (rawType url : option string) :
  unrecognised rawType ->
  normalizeType rawType url =
    let u := JS.toLowerCase (JS.or_empty url) in
    if JS.endsWith u ".m3u8" then Hls
    else if JS.endsWith u ".mpd" then Dash
    else if JS.endsWith u ".mp4" then Mp4
    else if JS.includes u "youtube.com" || JS.includes u "youtu.be"
            || JS.includes u "player." || JS.includes u "embed" then Iframe
    else Hls.
Proof.
  unfold unrecognised, canonicalTag, normalizeType.
  intros (H1 & H2 & H3 & H4 & H5 & H6).
  apply String.eqb_neq in H1, H2, H3, H4, H5, H6.
  rewrite H1, H2, H3, H4, H5, H6. reflexivity.
Qed.

Lemma embed_host_spec (u : string) :
  JS.includes u "youtube.com" || JS.includes u "youtu.be"
  || JS.includes u "player." || JS.includes u "embed" = true
  <-> embed_host u.
Proof.
  unfold embed_host. rewrite !orb_true_iff, !includes_spec. tauto.
Qed.

(** The resolution order in terms of the tag as the resolver compares it:
    a tag equal to a known one up to letter case decides the kind; a tag
    whose canonical form is none of the six leaves the lower-cased URL to
    decide. *)
Lemma normalizeType_by_canonical_tag (t : string)
    (rawType url : option string) :
  let u := JS.toLowerCase (JS.or_empty url) in
  (eq_nocase t "embed" \/ eq_nocase t "iframe" ->
     normalizeType (Some t) url = Iframe)
  /\ (eq_nocase t "mp4" -> normalizeType (Some t) url = Mp4)
  /\ (eq_nocase t "hls" \/ eq_nocase t "m3u8" ->
        normalizeType (Some t) url = Hls)
  /\ (eq_nocase t "dash" -> normalizeType (Some t) url = Dash)
  /\ (unrecognised rawType ->
        (has_suffix u ".m3u8" -> normalizeType rawType url = Hls)
        /\ (has_suffix u ".mpd" -> normalizeType rawType url = Dash)
        /\ (has_suffix u ".mp4" -> normalizeType rawType url = Mp4)
        /\ (~ has_suffix u ".m3u8" -> ~ has_suffix u ".mpd" ->
            ~ has_suffix u ".mp4" ->
              (embed_host u -> normalizeType rawType url = Iframe)
              /\ (~ embed_host u -> normalizeType rawType url = Hls))).
Proof.
  intros u.
  split; [intros [H|H]; rewrite (normalizeType_tag _ _ url H); reflexivity|].
  split; [intros H; rewrite (normalizeType_tag _ _ url H); reflexivity|].
  split; [intros [H|H]; rewrite (normalizeType_tag _ _ url H); reflexivity|].
  split; [intros H; rewrite (normalizeType_tag _ _ url H); reflexivity|].
  intros Hun. rewrite (normalizeType_fallback _ url Hun). cbv zeta. fold u.
  split; [|split; [|split]].
  - intros Hs. apply endsWith_spec in Hs. rewrite Hs. reflexivity.
  - intros Hs.
    rewrite (not_endsWith u ".mpd" ".m3u8") by (easy || exact Hs).
    apply endsWith_spec in Hs. rewrite Hs. reflexivity.
  - intros Hs.
    rewrite (not_endsWith u ".mp4" ".m3u8") by (easy || exact Hs).
    rewrite (not_endsWith u ".mp4" ".mpd") by (easy || exact Hs).
    apply endsWith_spec in Hs. rewrite Hs. reflexivity.
  - intros H1 H2 H3. rewrite <- endsWith_spec in H1, H2, H3.
    apply not_true_is_false in H1, H2, H3. rewrite H1, H2, H3.
    split; intros He.
    + apply embed_host_spec in He. rewrite He. reflexivity.
    + rewrite <- embed_host_spec in He.
      apply not_true_is_false in He. rewrite He. reflexivity.
Qed.

End NormalizeType.

(** ** The access gate *)

Section AccessGate.

Variables subscriptionLoading rentalLoading : bool.
Variables hasActiveSubscription hasActiveRental : bool.

(** The free tier is never locked, whatever else holds. *)
Lemma isLocked_free (excludeFromPlan : bool) :
  isLocked subscriptionLoading rentalLoading Free excludeFromPlan
    hasActiveSubscription hasActiveRental = false.
Proof. unfold isLocked. cbn. rewrite !orb_true_r. reflexivity. Qed.

(** The gate in closed form: outside the loading phase it is a function of
    the tier, the exclude flag and the two entitlements. *)
Lemma isLocked_resolved (accessType : AccessType) (excludeFromPlan : bool) :
  isLocked false false accessType excludeFromPlan
    hasActiveSubscription hasActiveRental =
  match accessType with
  | Free => false
  | Rent => if excludeFromPlan
            then negb hasActiveRental
            else negb hasActiveSubscription && negb hasActiveRental
  | Vip => negb hasActiveSubscription
  end.
Proof. destruct accessType, excludeFromPlan; reflexivity. Qed.

(** C6. While the subscription status or the rental status is still
    loading, the gate reports not locked, for every tier, exclude flag and
    entitlement. *)
Theorem isLocked_while_loading (accessType : AccessType)
    (excludeFromPlan : bool) :
  subscriptionLoading = true \/ rentalLoading = true ->
  isLocked subscriptionLoading rentalLoading accessType excludeFromPlan
    hasActiveSubscription hasActiveRental = false.
Proof.
  unfold isLocked. intros [-> | ->]; cbn; [reflexivity|].
  rewrite orb_true_r. reflexivity.
Qed.

End AccessGate.

Lemma isLocked_while_loading_witness :
  isLocked false true Rent true false false = false
  /\ isLocked true false Vip false false false = false.
Proof.
  split.
  - apply (isLocked_while_loading false true false false Rent true).
    right. reflexivity.
  - apply (isLocked_while_loading true false false false Vip false).
    left. reflexivity.
Defined.

(** C2, as stated, fails while a status is loading: rent tier, excluded
    from the plan, no rental, and the gate does not report locked. *)
Lemma rent_excluded_unlocked_while_loading :
  let subscriptionLoading := true in
  let hasActiveRental := false in
  ~ (isLocked subscriptionLoading false Rent true false hasActiveRental = true
     <-> hasActiveRental = false).
Proof. cbn. intros [_ H]. specialize (H eq_refl). discriminate. Qed.

(** C2, amended. Once both statuses have finished loading, rent-tier
    content that is excluded from the plan is locked if and only if there
    is no active rental, with or without a subscription. *)
Theorem rent_excluded_locked_iff_no_rental
    (hasActiveSubscription hasActiveRental : bool) :
  (isLocked false false Rent true hasActiveSubscription hasActiveRental = true
   <-> hasActiveRental = false)
  /\ isLocked false false Rent true true false = true.
Proof.
  split; [|reflexivity].
  destruct hasActiveSubscription, hasActiveRental; cbn; intuition congruence.
Qed.

(** C3, as stated, fails while a status is loading: rent tier, not
    excluded, neither subscription nor rental, and the gate does not report
    locked. *)
Lemma rent_included_unlocked_while_loading :
  let rentalLoading := true in
  let hasActiveSubscription := false in
  let hasActiveRental := false in
  isLocked false rentalLoading Rent false hasActiveSubscription hasActiveRental
  <> true.
Proof. cbn. discriminate. Qed.

(** C3, amended. Rent-tier content that is not excluded from the plan is
    unlocked whenever a subscription or a rental is active; it is locked
    when neither is, once both statuses have finished loading. *)
Theorem rent_included_unlocked_iff_entitled
    (subscriptionLoading rentalLoading : bool)
    (hasActiveSubscription hasActiveRental : bool) :
  (hasActiveSubscription = true \/ hasActiveRental = true ->
   isLocked subscriptionLoading rentalLoading Rent false
     hasActiveSubscription hasActiveRental = false)
  /\ (hasActiveSubscription = false -> hasActiveRental = false ->
      isLocked false false Rent false
        hasActiveSubscription hasActiveRental = true).
Proof.
  split.
  - destruct subscriptionLoading, rentalLoading,
      hasActiveSubscription, hasActiveRental; cbn; intuition congruence.
  - intros -> ->. reflexivity.
Qed.

Lemma rent_included_unlocked_iff_entitled_witness :
  isLocked true false Rent false true false = false
  /\ isLocked false false Rent false false true = false
  /\ isLocked false false Rent false false false = true.
Proof.
  split; [|split].
  - apply (rent_included_unlocked_iff_entitled true false true false).
    left. reflexivity.
  - apply (rent_included_unlocked_iff_entitled false false false true).
    right. reflexivity.
  - apply (rent_included_unlocked_iff_entitled false false false false);
      reflexivity.
Defined.

(** ** The episode-level override *)

Section EpisodeAccess.

Variable episodes : option (list Episode.t).
Variable currentEpisodeId : option string.
Variable accessType : option AccessType.

(** The current episode is the first one of the list with the selected id. *)
Lemma currentEpisode_found (ep : Episode.t) :
  currentEpisode episodes currentEpisodeId = Some ep ->
  exists eps, episodes = Some eps /\ In ep eps
              /\ currentEpisodeId = Some (Episode.id ep).
Proof.
  unfold currentEpisode. destruct episodes as [eps|]; [|discriminate].
  intros H. apply List.find_some in H as [Hin Hid].
  apply bool_decide_eq_true in Hid. eauto.
Qed.

(** C9. When the current episode carries its own tier, that tier is the
    effective one and the one the player works with; the content-level
    tier is the effective one when the episode has none (or when no
    episode is current). *)
Theorem effectiveAccessType_override :
  (forall ep a,
      currentEpisode episodes currentEpisodeId = Some ep ->
      Episode.access ep = Some a ->
      effectiveAccessType episodes currentEpisodeId accessType = Some a
      /\ playerAccessType episodes currentEpisodeId accessType = a)
  /\ (forall ep,
         currentEpisode episodes currentEpisodeId = Some ep ->
         Episode.access ep = None ->
         effectiveAccessType episodes currentEpisodeId accessType = accessType)
  /\ (currentEpisode episodes currentEpisodeId = None ->
      effectiveAccessType episodes currentEpisodeId accessType = accessType).
Proof.
  unfold playerAccessType, effectiveAccessType.
  split; [|split].
  - intros ep a -> ->. split; reflexivity.
  - intros ep -> ->. reflexivity.
  - intros ->. reflexivity.
Qed.

End EpisodeAccess.

Lemma effectiveAccessType_override_witness :
  let eps := Some [ Episode.mk "e1" 1 "Pilot" None (Some Free);
                    Episode.mk "e2" 2 "Second" None None ] in
  effectiveAccessType eps (Some "e1") (Some Vip) = Some Free
  /\ effectiveAccessType eps (Some "e2") (Some Vip) = Some Vip
  /\ effectiveAccessType eps (Some "e9") (Some Rent) = Some Rent.
Proof.
  intros eps.
  pose proof (effectiveAccessType_override eps (Some "e1") (Some Vip))
    as (H1 & _ & _).
  pose proof (effectiveAccessType_override eps (Some "e2") (Some Vip))
    as (_ & H2 & _).
  pose proof (effectiveAccessType_override eps (Some "e9") (Some Rent))
    as (_ & _ & H3).
  split; [|split].
  - exact (proj1 (H1 _ Free eq_refl eq_refl)).
  - exact (H2 _ eq_refl eq_refl).
  - exact (H3 eq_refl).
Defined.

(** ** The source normalisation *)

Section Sources.

Variable videoSources : option (list RawSource.t).
Variable src : option string.
Variable type : StreamType.

(** The quality map survives exactly when the field read (the first truthy
    of [quality_urls] and [mp4Urls]) is a plain object with at least one
    key and no [_type: 'undefined'] marker. *)
Lemma qualityUrls_spec (source : RawSource.t) (m : gmap string string) :
  qualityUrls source = Some m <->
  (if JsVal_truthy (RawSource.quality_urls source)
   then RawSource.quality_urls source
   else RawSource.mp4Urls source) = JObject m
  /\ m <> ∅ /\ m !! "_type" <> Some "undefined".
Proof.
  unfold qualityUrls.
  destruct (if JsVal_truthy (RawSource.quality_urls source)
            then RawSource.quality_urls source
            else RawSource.mp4Urls source) as [| |s|xs|m'];
    try (split; [discriminate | intros [? _]; discriminate]).
  destruct (Nat.eqb_spec (size m') 0) as [Hz|Hz]; cbn [orb].
  - apply map_size_empty_iff in Hz.
    split; [discriminate|]. intros (Heq & Hne & _). congruence.
  - case_bool_decide as Hm.
    + split; [discriminate|]. intros (Heq & _ & Hty). congruence.
    + split.
      * intros [= <-]. repeat split; [|exact Hm].
        intros ->. apply Hz. apply map_size_empty.
      * intros ([= <-] & _). reflexivity.
Qed.

Lemma sources_length (accessType : AccessType) :
  length (sources videoSources src type accessType)
  = length (rawSources videoSources src type).
Proof. unfold sources. apply length_imap. Qed.

Lemma sources_lookup (accessType : AccessType) (i : nat) :
  sources videoSources src type accessType !! i
  = normalizeSource accessType i <$> rawSources videoSources src type !! i.
Proof. unfold sources. apply list_lookup_imap. Qed.

(** C1, amended. Every descriptor yields one normalised source, in order.
    For free content the url is kept as it is and the quality map is kept
    when it is a non-empty object without the ['undefined'] marker (absent
    otherwise); for any other tier both are absent. In every tier the id
    and the server name are kept when non-empty and otherwise replaced by
    the positional defaults [server-<index>] and [Server <index+1>], the
    resolved kind is present, and the declared kind is kept when non-empty
    (the resolved kind stands in otherwise). *)
Theorem sources_strip_urls_unless_free (accessType : AccessType) :
  length (sources videoSources src type accessType)
  = length (rawSources videoSources src type)
  /\ forall (i : nat) (raw : RawSource.t),
  rawSources videoSources src type !! i = Some raw ->
  exists out,
    sources videoSources src type accessType !! i = Some out
    /\ (accessType = Free ->
        VideoSource.url out = RawSource.url raw
        /\ forall m, VideoSource.quality_urls out = Some m <->
             (if JsVal_truthy (RawSource.quality_urls raw)
              then RawSource.quality_urls raw
              else RawSource.mp4Urls raw) = JObject m
             /\ m <> ∅ /\ m !! "_type" <> Some "undefined")
    /\ (accessType <> Free ->
        VideoSource.url out = None /\ VideoSource.quality_urls out = None)
    /\ (JS.truthy (RawSource.id raw) = true ->
        RawSource.id raw = Some (VideoSource.id out))
    /\ (JS.truthy (RawSource.id raw) = false ->
        VideoSource.id out = "server-" ++ JS.nat_to_string i)
    /\ (JS.truthy (RawSource.server_name raw) = true ->
        RawSource.server_name raw = Some (VideoSource.server_name out))
    /\ (JS.truthy (RawSource.server_name raw) = false ->
        VideoSource.server_name out = "Server " ++ JS.nat_to_string (i + 1))
    /\ VideoSource.type out
       = normalizeType (RawSource.source_type raw) (RawSource.url raw)
    /\ (JS.truthy (RawSource.source_type raw) = true ->
        RawSource.source_type raw = Some (VideoSource.source_type out))
    /\ (JS.truthy (RawSource.source_type raw) = false ->
        VideoSource.source_type out = StreamType_name (VideoSource.type out)).
Proof.
  split; [apply sources_length|].
  intros i raw Hraw. exists (normalizeSource accessType i raw).
  rewrite sources_lookup, Hraw. split; [reflexivity|].
  unfold normalizeSource. cbn [VideoSource.url VideoSource.quality_urls
    VideoSource.id VideoSource.server_name VideoSource.type
    VideoSource.source_type].
  split.
  { intros ->. cbn [AccessType_eqb]. split; [reflexivity|].
    intros m. apply qualityUrls_spec. }
  split.
  { intros Hne. destruct accessType; [contradiction| |]; split; reflexivity. }
  split.
  { intros Ht. rewrite Ht.
    destruct (RawSource.id raw) as [[|]|]; try discriminate. reflexivity. }
  split; [intros ->; reflexivity|].
  split.
  { intros Ht. rewrite Ht.
    destruct (RawSource.server_name raw) as [[|]|]; try discriminate.
    reflexivity. }
  split; [intros ->; reflexivity|].
  split; [reflexivity|].
  split.
  { intros Ht. rewrite Ht.
    destruct (RawSource.source_type raw) as [[|]|]; try discriminate.
    reflexivity. }
  intros ->. reflexivity.
Qed.

End Sources.

Lemma sources_strip_urls_unless_free_witness :
  let paid := RawSource.mk (Some "s1") (Some "Main") (Some "hls")
                (Some "https://cdn.example/master.m3u8")
                (JObject {[ "720p" := "https://cdn.example/720.mp4" ]})
                JUndefined None (Some true) None None in
  exists out,
    sources (Some [paid]) None Hls Vip !! 0%nat = Some out
    /\ VideoSource.url out = None
    /\ VideoSource.quality_urls out = None
    /\ VideoSource.id out = "s1"
    /\ VideoSource.type out = Hls.
Proof.
  intros paid.
  destruct (proj2 (sources_strip_urls_unless_free (Some [paid]) None Hls Vip)
              0%nat paid eq_refl)
    as (out & Hout & _ & Hpaid & Hid & _ & _ & _ & Hty & _).
  exists out. split; [exact Hout|].
  destruct Hpaid as [Hu Hq]; [discriminate|].
  split; [exact Hu|]. split; [exact Hq|].
  split; [|exact Hty].
  specialize (Hid eq_refl). injection Hid as Hid. symmetry. exact Hid.
Defined.

(** C1, as stated, fails for free content on a descriptor whose id is the
    empty string and whose quality map is the empty object: the normalised
    source carries another id and no quality map. *)
Lemma sources_free_rewrites_empty_fields :
  let raw := RawSource.mk (Some "") (Some "Main") (Some "mp4")
               (Some "https://cdn.example/a.mp4")
               (JObject ∅) JUndefined None (Some true) None None in
  exists out,
    sources (Some [raw]) None Hls Free = [out]
    /\ RawSource.quality_urls raw = JObject ∅
    /\ VideoSource.quality_urls out <> Some ∅
    /\ Some (VideoSource.id out) <> RawSource.id raw.
Proof.
  intros raw. eexists. split; [reflexivity|].
  split; [reflexivity|]. split; vm_compute; discriminate.
Qed.

(** ** The progress tracker *)

Section ProgressTracker.

Variable ctx : SaveCtx.
Variables episodeId movieId : option string.

Lemma maybeSingle_Some {A : Type} (rows : list A) (r : A) :
  maybeSingle rows = Some r -> rows = [r].
Proof. destruct rows as [|a [|b rows]]; simpl; congruence. Qed.

(** A row found by the query is a row of the table, of that viewer. *)
Lemma selectHistory_In (userId : string) (db : list WatchRow.t)
    (r : WatchRow.t) :
  selectHistory userId episodeId movieId db = Some r ->
  In r db /\ WatchRow.user_id r = userId.
Proof.
  unfold selectHistory. intros H. apply maybeSingle_Some in H.
  assert (Hin : In r (List.filter (historyMatch userId episodeId movieId) db))
    by (rewrite H; left; reflexivity).
  apply List.filter_In in Hin as [Hin Hm]. split; [exact Hin|].
  unfold historyMatch in Hm. apply andb_true_iff in Hm as [Hu _].
  apply String.eqb_eq in Hu. exact Hu.
Qed.

(** C7. A periodic or teardown save made while the duration is unknown,
    zero or NaN leaves the table as it was: nothing is inserted and
    nothing is updated. *)
Theorem progressSave_skips_unknown_duration (trigger : SaveTrigger)
    (userId : option string) (mounted video : option Video.t)
    (db : list WatchRow.t) :
  durationUnknown video ->
  progressSave trigger ctx userId episodeId movieId mounted video db = db.
Proof.
  intros Hd. unfold progressSave.
  destruct (trackerActive userId episodeId movieId mounted); [|reflexivity].
  destruct trigger; unfold saveProgress, number_falsy;
    (destruct video as [v|]; [|reflexivity]);
    destruct Hd as [Hz|Hn]; rewrite ?Hz, ?Hn, ?orb_true_r; reflexivity.
Qed.

(** A row that passes the query's filter is the viewer's row for the
    content. *)
Lemma historyMatch_columns (userId : string) (r : WatchRow.t) :
  historyMatch userId episodeId movieId r = true ->
  WatchRow.user_id r = userId
  /\ (if JS.truthy episodeId
      then WatchRow.episode_id r = episodeId
      else WatchRow.movie_id r = movieId).
Proof.
  unfold historyMatch. intros H. apply andb_true_iff in H as [Hu Hc].
  apply String.eqb_eq in Hu. split; [exact Hu|].
  destruct (JS.truthy episodeId); apply bool_decide_eq_true in Hc;
    [exact Hc | exact (proj2 Hc)].
Qed.

Lemma selectHistory_columns (userId : string) (db : list WatchRow.t)
    (r : WatchRow.t) :
  selectHistory userId episodeId movieId db = Some r ->
  In r db /\ historyMatch userId episodeId movieId r = true.
Proof.
  unfold selectHistory. intros H. apply maybeSingle_Some in H.
  assert (Hin : In r (List.filter (historyMatch userId episodeId movieId) db))
    by (rewrite H; left; reflexivity).
  apply List.filter_In in Hin. exact Hin.
Qed.

(** C8. A save made for a known content with a known duration writes the
    viewer's row for that content (the existing one, else a new one) with
    a completed flag that is true exactly when duration minus position, in
    binary64 arithmetic, is below 30, and false otherwise; every row the
    save changes or adds carries that flag, and rows with another id are
    left as they were. *)
Theorem saveProgress_completed_flag (userId : string) (v : Video.t)
    (db : list WatchRow.t) :
  JS.truthy episodeId || JS.truthy movieId = true ->
  is_zero (Video.duration v) = false ->
  is_nan (Video.duration v) = false ->
  let db' := saveProgress ctx userId episodeId movieId (Some v) db in
  let completed := (Video.duration v - Video.currentTime v <? 30)%float in
  (exists r, In r db' /\ savedFor userId episodeId movieId completed r)
  /\ (forall r, In r db' ->
        In r db \/ WatchRow.completed r = Some completed)
  /\ (forall r, In r db ->
        (forall e, selectHistory userId episodeId movieId db = Some e ->
                   WatchRow.id r <> WatchRow.id e) ->
        In r db').
Proof.
  intros Hcontent Hz Hn. unfold saveProgress, number_falsy, completedFlag.
  rewrite Hz, Hn. cbn [orb].
  destruct (selectHistory userId episodeId movieId db) as [e|] eqn:Hsel;
    cbv zeta.
  - apply selectHistory_columns in Hsel as [Hin Hmatch].
    apply historyMatch_columns in Hmatch as [Huser Hcols].
    split; [|split].
    + eexists. split.
      * apply List.in_map. exact Hin.
      * unfold updateRow. rewrite String.eqb_refl. unfold savedFor.
        cbn [WatchRow.user_id WatchRow.episode_id WatchRow.movie_id
             WatchRow.completed].
        repeat split; assumption.
    + intros r Hr. apply List.in_map_iff in Hr as (r0 & <- & Hr0).
      unfold updateRow.
      destruct (String.eqb (WatchRow.id r0) (WatchRow.id e));
        [right; reflexivity | left; exact Hr0].
    + intros r Hr Hne. apply List.in_map_iff. exists r. split; [|exact Hr].
      unfold updateRow. specialize (Hne e eq_refl).
      apply String.eqb_neq in Hne. rewrite Hne. reflexivity.
  - split; [|split].
    + eexists. split.
      * apply List.in_or_app. right. left. reflexivity.
      * unfold savedFor, or_null.
        cbn [WatchRow.user_id WatchRow.episode_id WatchRow.movie_id
             WatchRow.completed].
        split; [reflexivity|]. split; [|reflexivity].
        destruct (JS.truthy episodeId); [reflexivity|].
        cbn [orb] in Hcontent. rewrite Hcontent. reflexivity.
    + intros r Hr. apply List.in_app_or in Hr as [Hr|[<-|[]]];
        [left; exact Hr | right; reflexivity].
    + intros r Hr _. apply List.in_or_app. left. exact Hr.
Qed.

End ProgressTracker.

Lemma progressSave_skips_unknown_duration_witness :
  let ctx := {| now := "2024-05-01T10:00:00.000Z"; newId := "w2";
                defaultTimestamp := "2024-05-01T10:00:00.000Z" |} in
  let db := [ WatchRow.mk "w1" "u1" None (Some "m1") (Some 42%float)
                (Some 5400%float) (Some false) "2024-04-30T21:00:00.000Z" ] in
  let loading := Some (Video.mk 0%float nan 0 true) in
  progressSave Periodic ctx (Some "u1") None (Some "m1") loading loading db = db
  /\ progressSave Teardown ctx (Some "u1") None (Some "m1") loading None db = db.
Proof.
  intros ctx db loading. split.
  - apply (progressSave_skips_unknown_duration ctx None (Some "m1") Periodic
             (Some "u1") loading loading db).
    right. reflexivity.
  - apply (progressSave_skips_unknown_duration ctx None (Some "m1") Teardown
             (Some "u1") loading None db).
    exact I.
Defined.

Lemma saveProgress_completed_flag_witness :
  let ctx := {| now := "2024-05-01T10:00:00.000Z"; newId := "w2";
                defaultTimestamp := "2024-05-01T10:00:00.000Z" |} in
  let nearEnd := Video.mk 75.5%float 100%float 4 false in
  let midway := Video.mk 900%float 5400%float 4 false in
  let mine := WatchRow.mk "w1" "u1" None (Some "m1") (Some 12%float)
                (Some 5400%float) (Some true) "2024-04-30T21:00:00.000Z" in
  (exists r,
      In r (saveProgress ctx "u1" None (Some "m1") (Some nearEnd) [])
      /\ savedFor "u1" None (Some "m1") true r)
  /\ (exists r,
         In r (saveProgress ctx "u1" None (Some "m1") (Some midway) [mine])
         /\ savedFor "u1" None (Some "m1") false r).
Proof.
  intros ctx nearEnd midway mine. split.
  - destruct (saveProgress_completed_flag ctx None (Some "m1") "u1" nearEnd []
                eq_refl eq_refl eq_refl) as [(r & Hin & Hw) _].
    exists r. split; [exact Hin | exact Hw].
  - destruct (saveProgress_completed_flag ctx None (Some "m1") "u1" midway
                [mine] eq_refl eq_refl eq_refl) as [(r & Hin & Hw) _].
    exists r. split; [exact Hin | exact Hw].
Defined.

(** ** Resuming *)

Section Resume.

Lemma compare_cont_flip (p q : positive) :
  Pos.compare_cont Eq q p = CompOpp (Pos.compare_cont Eq p q).
Proof. rewrite Pos.compare_cont_antisym. reflexivity. Qed.

Lemma SFleb_not_SFltb (x y : spec_float) :
  SFleb x y = true -> SFltb y x = false.
Proof.
  unfold SFleb, SFltb.
  destruct x as [sx|sx| |sx mx ex], y as [sy|sy| |sy my ey]; simpl;
    try destruct sx; try destruct sy; try easy.
  all: rewrite (Z.compare_antisym ex ey);
    destruct (ex ?= ey)%Z; simpl; try easy;
    rewrite (compare_cont_flip mx my);
    destruct (Pos.compare_cont Eq mx my); simpl; easy.
Qed.

(** On binary64 numbers, [x <= y] excludes [y < x] (NaN satisfies neither). *)
Lemma leb_not_ltb (x y : float) :
  (x <=? y)%float = true -> (y <? x)%float = false.
Proof. rewrite leb_spec, ltb_spec. apply SFleb_not_SFltb. Qed.

(** The value handed to [setSavedProgress], characterised. *)
Lemma loadSavedProgress_Some (d : WatchRow.t) (p : float) :
  loadSavedProgress (Some d) = Some p <->
  WatchRow.completed d <> Some true
  /\ WatchRow.progress d = Some p /\ (10 <? p)%float = true.
Proof.
  unfold loadSavedProgress.
  destruct (WatchRow.completed d) as [[|]|], (WatchRow.progress d) as [q|];
    cbn [default negb andb];
    try (split; [discriminate | intros (H1 & H2 & H3); congruence]).
  - destruct (10 <? q)%float eqn:E.
    + split; [intros [= <-]; repeat split; congruence|].
      intros (_ & [= <-] & _). reflexivity.
    + split; [discriminate|]. intros (_ & [= <-] & H). congruence.
  - destruct (10 <? q)%float eqn:E.
    + split; [intros [= <-]; repeat split; congruence|].
      intros (_ & [= <-] & _). reflexivity.
    + split; [discriminate|]. intros (_ & [= <-] & H). congruence.
Qed.

Variables userId episodeId movieId : option string.
Variable db : list WatchRow.t.

(** C10. After the stored record is loaded, a saved position exists only
    if the record is not marked completed and its progress exceeds 10
    seconds, and it is that progress; a record that is completed, or whose
    progress is 10 seconds or less, gives none. The resume effect seeks to
    the saved position when there is one and the element is ready, and
    leaves the element alone when there is none, so that playback starts
    at the beginning. A record that is not marked completed and whose
    progress exceeds 10 seconds does give its progress as the saved
    position, and the resume effect then seeks a ready element to it. *)
Theorem resume_only_from_eligible_record :
  (forall p,
      savedProgressAfterLoad userId episodeId movieId db = Some p ->
      exists u d,
        userId = Some u
        /\ selectHistory u episodeId movieId db = Some d
        /\ WatchRow.completed d <> Some true
        /\ WatchRow.progress d = Some p
        /\ (10 <? p)%float = true)
  /\ (forall u d,
         userId = Some u ->
         selectHistory u episodeId movieId db = Some d ->
         WatchRow.completed d = Some true
         \/ (exists p, WatchRow.progress d = Some p
                       /\ (p <=? 10)%float = true) ->
         savedProgressAfterLoad userId episodeId movieId db = None)
  /\ (forall video, resumeEffect None video = (video, None))
  /\ (forall p v,
         (2 <= Video.readyState v)%nat ->
         exists v',
           resumeEffect (Some p) (Some v) = (Some v', None)
           /\ Video.currentTime v' = p
           /\ Video.duration v' = Video.duration v
           /\ Video.paused v' = Video.paused v)
  /\ (forall u d p,
         userId = Some u ->
         JS.truthy episodeId || JS.truthy movieId = true ->
         selectHistory u episodeId movieId db = Some d ->
         WatchRow.completed d <> Some true ->
         WatchRow.progress d = Some p ->
         (10 <? p)%float = true ->
         savedProgressAfterLoad userId episodeId movieId db = Some p
         /\ forall v,
              (2 <= Video.readyState v)%nat ->
              exists v',
                resumeEffect
                  (savedProgressAfterLoad userId episodeId movieId db)
                  (Some v) = (Some v', None)
                /\ Video.currentTime v' = p).
Proof.
  split; [|split; [|split; [|split]]].
  - intros p. unfold savedProgressAfterLoad.
    destruct userId as [u|]; [|discriminate].
    destruct (JS.truthy episodeId || JS.truthy movieId); [|discriminate].
    destruct (selectHistory u episodeId movieId db) as [d|] eqn:Hsel;
      [|discriminate].
    intros H. apply loadSavedProgress_Some in H as (Hc & Hp & Hlt).
    exists u, d. repeat split; assumption.
  - intros u d -> Hsel Hbad. unfold savedProgressAfterLoad.
    destruct (JS.truthy episodeId || JS.truthy movieId); [|reflexivity].
    rewrite Hsel.
    destruct (loadSavedProgress (Some d)) as [q|] eqn:E; [|reflexivity].
    apply loadSavedProgress_Some in E as (Hc & Hp & Hlt).
    destruct Hbad as [Hdone | (p & Hp' & Hle)]; [contradiction|].
    apply leb_not_ltb in Hle. congruence.
  - intros [v|]; reflexivity.
  - intros p v Hready. unfold resumeEffect.
    apply Nat.leb_le in Hready. rewrite Hready.
    eexists. split; [reflexivity|]. repeat split.
  - intros u d p -> Hcontent Hsel Hc Hp Hlt.
    assert (Hload : savedProgressAfterLoad (Some u) episodeId movieId db
                    = Some p).
    { unfold savedProgressAfterLoad. rewrite Hcontent, Hsel.
      apply loadSavedProgress_Some. repeat split; assumption. }
    split; [exact Hload|].
    intros v Hready. rewrite Hload. unfold resumeEffect.
    apply Nat.leb_le in Hready. rewrite Hready.
    eexists. split; reflexivity.
Qed.

End Resume.

Lemma resume_only_from_eligible_record_witness :
  let row p c := WatchRow.mk "w1" "u1" None (Some "m1") (Some p)
                   (Some 5400%float) (Some c) "2024-04-30T21:00:00.000Z" in
  savedProgressAfterLoad (Some "u1") None (Some "m1") [row 8%float false] = None
  /\ savedProgressAfterLoad (Some "u1") None (Some "m1") [row 900%float true]
     = None
  /\ savedProgressAfterLoad (Some "u1") None (Some "m1") [row 900%float false]
     = Some 900%float
  /\ exists v', resumeEffect
                  (savedProgressAfterLoad (Some "u1") None (Some "m1")
                     [row 900%float false])
                  (Some (Video.mk 0%float 5400%float 4 true)) = (Some v', None)
                /\ Video.currentTime v' = 900%float.
Proof.
  intros row.
  pose proof (resume_only_from_eligible_record (Some "u1") None (Some "m1")
                [row 8%float false]) as (_ & H1 & _).
  pose proof (resume_only_from_eligible_record (Some "u1") None (Some "m1")
                [row 900%float true]) as (_ & H2 & _).
  pose proof (resume_only_from_eligible_record (Some "u1") None (Some "m1")
                [row 900%float false]) as (_ & _ & _ & _ & H3).
  destruct (H3 "u1" (row 900%float false) 900%float eq_refl eq_refl eq_refl)
    as [Hload Hseek]; [discriminate | reflexivity | reflexivity |].
  split; [|split; [|split]].
  - apply (H1 "u1" (row 8%float false)); [reflexivity | reflexivity |].
    right. exists 8%float. split; reflexivity.
  - apply (H2 "u1" (row 900%float true)); [reflexivity | reflexivity |].
    left. reflexivity.
  - exact Hload.
  - destruct (Hseek (Video.mk 0%float 5400%float 4 true)) as (v' & Hv & Ht);
      [cbn; lia|].
    exists v'. split; [exact Hv | exact Ht].
Defined.

(** ** Server switches and protected-URL answers *)

Section ProtectedFetch.

Variable P : PlayerProps.
Hypothesis paid : accessType P <> Free.
Hypothesis signedIn : user P = true.

Lemma paid_not_free : AccessType_eqb (accessType P) Free = false.
Proof using paid. destruct (accessType P); [contradiction| |]; reflexivity. Qed.

(** On paid content a switch clears the validated source and asks the
    backend for the new one. *)
Lemma handleServerChange_paid (s : VideoSource.t) (st : PlayerState) :
  handleServerChange P s st =
  {| currentSource := Some s;
     protectedSource := None;
     accessValidated := false;
     accessError := None;
     isLoading := true;
     pending := pending st ++ [VideoSource.id s] |}.
Proof using paid signedIn.
  unfold handleServerChange, fetchProtectedSource_call.
  rewrite paid_not_free, signedIn. reflexivity.
Qed.

(** An answer changes neither the selection nor, when it succeeds, waits
    for anything: its source becomes the validated one. *)
Lemma deliver_success (st : PlayerState) (i : nat) (x : string)
    (r : ResultSource.t) (e : option string) :
  pending st !! i = Some x ->
  let st' := step P st (Deliver i (Some {| success := true;
                                            source := Some r;
                                            error := e |})) in
  currentSource st' = currentSource st
  /\ activeSource st' = Some (validatedSource r)
  /\ pending st' = answered i (pending st).
Proof. intros Hx. cbn [step]. rewrite Hx. repeat split. Qed.

Lemma settled_on_step (s : VideoSource.t) (st : PlayerState) (e : Event) :
  settled_on s st -> in_order_event st e = true ->
  settled_on s (step P st e).
Proof using paid signedIn.
  intros (Hcur & Hlast & Hidle) He.
  destruct e as [srcs| |s'|[|i] result]; try discriminate.
  - (* the fetch effect *)
    cbn [step]. unfold fetchEffect.
    destruct (subscriptionLoading P || rentalLoading P);
      [repeat split; assumption|].
    rewrite Hcur, paid_not_free, signedIn. cbn [negb andb].
    destruct (locked P); cbn [negb andb].
    + repeat split; assumption.
    + unfold fetchProtectedSource_call. rewrite signedIn. cbn [negb].
      repeat split; cbn [currentSource pending].
      * exact Hcur.
      * intros _. apply last_snoc.
      * intros Hnil. destruct (pending st); discriminate.
  - (* the oldest pending call is answered *)
    cbn [in_order_event] in He. cbn [step].
    destruct (pending st) as [|h t] eqn:Hp.
    { destruct result as [[[] [r|] ?]|]; discriminate. }
    cbn [lookup list_lookup].
    assert (Hans : answered 0 (h :: t) = t) by reflexivity.
    assert (Hh : t = [] -> h = VideoSource.id s).
    { intros ->. specialize (Hlast ltac:(discriminate)).
      cbn in Hlast. congruence. }
    assert (Ht : t <> [] -> last t = Some (VideoSource.id s)).
    { intros Hne. rewrite <- Hlast by discriminate.
      destruct t; [contradiction | reflexivity]. }
    destruct result as [[[] [r|] err]|];
      cbn [fetchProtectedSource_resume]; rewrite Hans;
      (split; [exact Hcur|]); (split; [exact Ht|]);
      intros Hnil p; unfold activeSource;
      cbn [accessValidated protectedSource]; try discriminate.
    intros [= <-]. cbn [validatedSource VideoSource.id].
    apply String.eqb_eq in He. rewrite He. apply Hh, Hnil.
Qed.

Lemma settled_on_run (s : VideoSource.t) (evs : list Event)
    (st : PlayerState) :
  settled_on s st -> in_order_run P st evs = true ->
  settled_on s (run P st evs).
Proof using paid signedIn.
  revert st. induction evs as [|e evs IH]; intros st Hst Hrun; [exact Hst|].
  cbn [in_order_run] in Hrun. apply andb_true_iff in Hrun as [He Hrun].
  cbn [run fold_left]. apply IH; [|exact Hrun].
  apply settled_on_step; assumption.
Qed.

(** C4, amended. On paid content, for a signed-in viewer, a server switch
    selects the new source, clears the validated source and leaves the
    call for the new source as the newest pending one. If the pending
    calls are then answered oldest first, each successful answer carrying
    the source it was asked for, then once nothing is pending a validated
    source is the most recently selected one. Any successful answer to a
    pending call, whichever call it answers, becomes the validated source
    and leaves the selection unchanged. *)
Theorem server_change_then_answers (s : VideoSource.t) (st : PlayerState)
    (evs : list Event) :
  let st1 := handleServerChange P s st in
  (currentSource st1 = Some s
   /\ activeSource st1 = None
   /\ last (pending st1) = Some (VideoSource.id s))
  /\ (in_order_run P st1 evs = true ->
      let st2 := run P st1 evs in
      currentSource st2 = Some s
      /\ (pending st2 = [] ->
          forall p, activeSource st2 = Some p ->
                    VideoSource.id p = VideoSource.id s))
  /\ (forall st' i x r e,
         pending st' !! i = Some x ->
         let st'' := step P st' (Deliver i (Some {| success := true;
                                                     source := Some r;
                                                     error := e |})) in
         currentSource st'' = currentSource st'
         /\ activeSource st'' = Some (validatedSource r)).
Proof using paid signedIn.
  cbv zeta. rewrite handleServerChange_paid. split; [|split].
  - cbn [currentSource pending]. repeat split. apply last_snoc.
  - intros Hrun.
    assert (H0 : settled_on s
                   {| currentSource := Some s; protectedSource := None;
                      accessValidated := false; accessError := None;
                      isLoading := true;
                      pending := pending st ++ [VideoSource.id s] |}).
    { repeat split; cbn [currentSource pending].
      - intros _. apply last_snoc.
      - intros Hnil. destruct (pending st); discriminate. }
    destruct (settled_on_run s evs _ H0 Hrun) as (Hc & _ & Hidle).
    split; assumption.
  - intros st' i x r e Hx.
    destruct (deliver_success st' i x r e Hx) as (Hc & Ha & _).
    split; assumption.
Qed.

End ProtectedFetch.

Lemma server_change_then_answers_witness :
  let st2 :=
    run Scenario.viewer
      (handleServerChange Scenario.viewer Scenario.serverB Scenario.mounted)
      [ FetchEffect;
        Deliver 0 (Scenario.answerFor Scenario.serverA "https://signed.example/a");
        Deliver 0 (Scenario.answerFor Scenario.serverB "https://signed.example/b");
        Deliver 0 (Scenario.answerFor Scenario.serverB "https://signed.example/b") ] in
  currentSource st2 = Some Scenario.serverB
  /\ (forall p, activeSource st2 = Some p -> VideoSource.id p = "srv-b").
Proof.
  intros st2.
  destruct (server_change_then_answers Scenario.viewer
              ltac:(discriminate) eq_refl
              Scenario.serverB Scenario.mounted
              [ FetchEffect;
                Deliver 0 (Scenario.answerFor Scenario.serverA "https://signed.example/a");
                Deliver 0 (Scenario.answerFor Scenario.serverB "https://signed.example/b");
                Deliver 0 (Scenario.answerFor Scenario.serverB "https://signed.example/b") ])
    as (_ & Hrun & _).
  destruct (Hrun eq_refl) as [Hc Hidle].
  split; [exact Hc|]. intros p Hp. exact (Hidle eq_refl p Hp).
Defined.

(** C4, as stated, fails: server B is selected while the call for server A
    is pending, the answers for B arrive, then the answer for A arrives;
    server A becomes the validated source although B is selected. *)
Lemma late_answer_overrides_selection :
  let final :=
    run Scenario.viewer Scenario.mounted
      [ ServerChange Scenario.serverB;
        FetchEffect;
        Deliver 1 (Scenario.answerFor Scenario.serverB "https://signed.example/b");
        Deliver 1 (Scenario.answerFor Scenario.serverB "https://signed.example/b");
        Deliver 0 (Scenario.answerFor Scenario.serverA "https://signed.example/a") ] in
  pending Scenario.mounted = ["srv-a"]
  /\ currentSource final = Some Scenario.serverB
  /\ pending final = []
  /\ VideoSource.id <$> activeSource final = Some "srv-a"
  /\ VideoSource.id <$> currentSource final = Some "srv-b".
Proof. vm_compute. repeat split. Qed.

(** ** The file-URL lookup *)

Section QualityLookup.

Lemma digitsOf_app (a b : string) :
  digitsOf (a ++ b) = digitsOf a ++ digitsOf b.
Proof.
  induction a as [|c a IH]; [reflexivity|].
  change (String c a ++ b) with (String c (a ++ b)). cbn [digitsOf].
  rewrite IH. destruct (is_digit c); reflexivity.
Qed.

(** Dropping the trailing [p] never changes the digits of a label. *)
Lemma digitsOf_stripTrailingP (s : string) :
  digitsOf (stripTrailingP s) = digitsOf s.
Proof.
  induction s as [|c s IH]; [reflexivity|].
  destruct s as [|c' s'].
  - cbn [stripTrailingP].
    destruct (Ascii.eqb_spec c "p") as [->|Hp]; [reflexivity|].
    destruct (Ascii.eqb_spec c "P") as [->|HP]; reflexivity.
  - change (stripTrailingP (String c (String c' s')))
      with (String c (stripTrailingP (String c' s'))).
    cbn [digitsOf] in *. rewrite IH. reflexivity.
Qed.

(** X1. [findMatchingQualityKey] returns the first key, in the order given,
    whose digits are those of the wanted label; it returns nothing when the
    wanted label is absent or empty, or when no key has those digits. *)
Theorem findMatchingQualityKey_first (keys : list string) (desired : string) :
  desired <> "" ->
  (forall k, findMatchingQualityKey keys (Some desired) = Some k ->
     exists before after : list string,
       keys = (before ++ k :: after)%list
       /\ digitsOf k = digitsOf desired
       /\ Forall (fun k' => digitsOf k' <> digitsOf desired) before)
  /\ (findMatchingQualityKey keys (Some desired) = None ->
      Forall (fun k' => digitsOf k' <> digitsOf desired) keys)
  /\ findMatchingQualityKey keys None = None
  /\ findMatchingQualityKey keys (Some "") = None.
Proof.
  intros Hne. unfold findMatchingQualityKey.
  assert (Ht : JS.truthy (Some desired) = true)
    by (destruct desired; [contradiction | reflexivity]).
  rewrite Ht. cbn [JS.or_empty JS.truthy].
  split; [|split; [|split; reflexivity]].
  - induction keys as [|k0 keys IH]; intros k; cbn [List.find];
      [discriminate|].
    destruct (String.eqb_spec (digitsOf k0) (digitsOf desired)) as [He|Hd].
    + intros [= <-]. exists [], keys. repeat split; [exact He | constructor].
    + intros Hk. destruct (IH k Hk) as (b & a & -> & Hkd & Hb).
      exists (k0 :: b), a. repeat split; [exact Hkd|].
      constructor; assumption.
  - induction keys as [|k0 keys IH]; cbn [List.find]; [constructor|].
    destruct (String.eqb_spec (digitsOf k0) (digitsOf desired)) as [He|Hd];
      [discriminate|].
    intros Hk. constructor; [exact Hd | exact (IH Hk)].
Qed.

Lemma truthyValue_Some (v : option QualityMap.value) (w : QualityMap.value) :
  truthyValue v = Some w <-> v = Some w /\ w <> QualityMap.Url "".
Proof.
  unfold truthyValue. destruct v as [[[|c s]|name]|].
  - split; [discriminate | intros [[= <-] H]; contradiction].
  - split; [intros [= <-]; split; [reflexivity | discriminate]|].
    intros [H _]. exact H.
  - split; [intros [= <-]; split; [reflexivity | discriminate]|].
    intros [H _]. exact H.
  - split; [discriminate | intros [H _]; discriminate].
Qed.

Lemma inherited_In (key : string) :
  QualityMap.inherited key = true <-> In key QualityMap.objectPrototype.
Proof.
  unfold QualityMap.inherited. rewrite List.existsb_exists. split.
  - intros (x & Hx & He). apply String.eqb_eq in He. subst. exact Hx.
  - intros H. exists key. split; [exact H | apply String.eqb_refl].
Qed.

(** A read gives the URL of the first own entry under that key, or, when
    there is no such entry, what is inherited under that name. *)
Lemma get_cases (o : QualityMap.t) (key : string) (w : QualityMap.value) :
  QualityMap.get o key = Some w ->
  (exists u, w = QualityMap.Url u /\ In (key, u) o)
  \/ (w = QualityMap.Inherited key
      /\ QualityMap.inherited key = true
      /\ ~ In key (QualityMap.keys o)).
Proof.
  unfold QualityMap.get.
  destruct (List.find (fun e => String.eqb (fst e) key) o) as [[k' u']|] eqn:E.
  - intros [= <-]. left. apply List.find_some in E as [Hin Hk].
    apply String.eqb_eq in Hk. cbn in Hk. subst k'.
    exists u'. split; [reflexivity | exact Hin].
  - destruct (QualityMap.inherited key) eqn:Ei; [|discriminate].
    intros [= <-]. right. split; [reflexivity|]. split; [reflexivity|].
    intros Hin. apply List.in_map_iff in Hin as ([k0 u0] & Hk0 & Hin0).
    cbn in Hk0. subst k0.
    pose proof (List.find_none _ _ E _ Hin0) as Hn. cbn in Hn.
    rewrite String.eqb_refl in Hn. discriminate.
Qed.

Lemma get_of_key (o : QualityMap.t) (k : string) :
  In k (QualityMap.keys o) ->
  exists u, QualityMap.get o k = Some (QualityMap.Url u) /\ In (k, u) o.
Proof.
  intros Hin. unfold QualityMap.get.
  destruct (List.find (fun e => String.eqb (fst e) k) o) as [[k' u']|] eqn:E.
  - apply List.find_some in E as [He Hk]. apply String.eqb_eq in Hk.
    cbn in Hk. subst k'. exists u'. split; [reflexivity | exact He].
  - exfalso. apply List.in_map_iff in Hin as ([k0 u0] & Hk0 & Hin0).
    cbn in Hk0. subst k0.
    pose proof (List.find_none _ _ E _ Hin0) as Hn. cbn in Hn.
    rewrite String.eqb_refl in Hn. discriminate.
Qed.

(** What one truthy read can give, for a key with the digits of the
    request. *)
Lemma read_cases (o : QualityMap.t) (key : string) (w : QualityMap.value) :
  truthyValue (QualityMap.get o key) = Some w ->
  (exists u, w = QualityMap.Url u /\ u <> "" /\ In (key, u) o)
  \/ (w = QualityMap.Inherited key
      /\ QualityMap.inherited key = true
      /\ ~ In key (QualityMap.keys o)).
Proof.
  intros H. apply truthyValue_Some in H as [Hg Hne].
  destruct (get_cases o key w Hg) as [(u & -> & Hin)|Hi]; [|right; exact Hi].
  left. exists u. split; [reflexivity|]. split; [|exact Hin].
  intros ->. apply Hne. reflexivity.
Qed.

Lemma getMp4Url_sound_aux (mp4Urls : QualityMap.t) (quality : string)
    (w : QualityMap.value) :
  getMp4Url mp4Urls quality = Some w ->
  (exists u k, w = QualityMap.Url u /\ u <> ""
               /\ In (k, u) mp4Urls /\ digitsOf k = digitsOf quality)
  \/ (exists name,
         w = QualityMap.Inherited name
         /\ (name = quality \/ name = stripTrailingP quality)
         /\ QualityMap.inherited name = true
         /\ ~ In name (QualityMap.keys mp4Urls)).
Proof.
  assert (Hlast : truthyValue (QualityMap.get mp4Urls (stripTrailingP quality))
                  = Some w ->
          (exists u k, w = QualityMap.Url u /\ u <> ""
                       /\ In (k, u) mp4Urls /\ digitsOf k = digitsOf quality)
          \/ (exists name,
                 w = QualityMap.Inherited name
                 /\ (name = quality \/ name = stripTrailingP quality)
                 /\ QualityMap.inherited name = true
                 /\ ~ In name (QualityMap.keys mp4Urls))).
  { intros H. destruct (read_cases _ _ _ H) as [(u & -> & Hne & Hin)|(-> & Hi & Hk)].
    - left. exists u, (stripTrailingP quality).
      repeat split; try assumption. apply digitsOf_stripTrailingP.
    - right. exists (stripTrailingP quality). repeat split; try assumption.
      right. reflexivity. }
  unfold getMp4Url.
  destruct (truthyValue (QualityMap.get mp4Urls quality)) as [w1|] eqn:E1.
  { intros [= <-].
    destruct (read_cases _ _ _ E1) as [(u & -> & Hne & Hin)|(-> & Hi & Hk)].
    - left. exists u, quality. repeat split; assumption.
    - right. exists quality. repeat split; try assumption. left. reflexivity. }
  destruct (findMatchingQualityKey (QualityMap.keys mp4Urls) (Some quality))
    as [mk|] eqn:Emk; cbn [JS.or_empty]; [|exact Hlast].
  destruct (JS.truthy (Some mk)); [|exact Hlast].
  destruct (truthyValue (QualityMap.get mp4Urls mk)) as [w2|] eqn:E2;
    [|exact Hlast].
  intros [= <-].
  unfold findMatchingQualityKey in Emk.
  destruct (JS.truthy (Some quality)); [|discriminate].
  apply List.find_some in Emk as [Hmk Hd]. apply String.eqb_eq in Hd.
  destruct (read_cases _ _ _ E2) as [(u & -> & Hne & Hin)|(_ & _ & Hk)].
  - left. exists u, mk. repeat split; assumption.
  - contradiction.
Qed.

(** X2. Whatever [getMp4Url] returns is either a non-empty URL stored in
    the map under a key with the same digits as the requested quality, or
    a value inherited from [Object.prototype]; the latter only when the
    requested label, or that label without its trailing p, names an
    inherited property (constructor, toString, ...) that is not a key of
    the map. So for every other label it never hands out anything but the
    URL of that resolution. A non-empty URL stored under the requested
    label itself is the one returned. *)
Theorem getMp4Url_sound (mp4Urls : QualityMap.t) (quality : string) :
  (forall w, getMp4Url mp4Urls quality = Some w ->
     (exists u k, w = QualityMap.Url u /\ u <> ""
                  /\ In (k, u) mp4Urls /\ digitsOf k = digitsOf quality)
     \/ (exists name,
            w = QualityMap.Inherited name
            /\ (name = quality \/ name = stripTrailingP quality)
            /\ QualityMap.inherited name = true
            /\ ~ In name (QualityMap.keys mp4Urls)))
  /\ (QualityMap.inherited quality = false ->
      QualityMap.inherited (stripTrailingP quality) = false ->
      forall w, getMp4Url mp4Urls quality = Some w ->
        exists u k, w = QualityMap.Url u /\ u <> ""
                    /\ In (k, u) mp4Urls /\ digitsOf k = digitsOf quality)
  /\ (forall u, QualityMap.get mp4Urls quality = Some (QualityMap.Url u) ->
        u <> "" ->
        getMp4Url mp4Urls quality = Some (QualityMap.Url u)).
Proof.
  split; [|split].
  - intros w. apply getMp4Url_sound_aux.
  - intros Hq Hs w Hw.
    destruct (getMp4Url_sound_aux _ _ _ Hw)
      as [H|(name & _ & [->| ->] & Hi & _)]; [exact H| |]; congruence.
  - intros u Hg Hne. unfold getMp4Url.
    assert (E : truthyValue (QualityMap.get mp4Urls quality)
                = Some (QualityMap.Url u)).
    { apply truthyValue_Some. split; [exact Hg|]. intros [= ->].
      apply Hne. reflexivity. }
    rewrite E. reflexivity.
Qed.

End QualityLookup.

(** ** The bandwidth-driven quality choice *)

Section OptimalQuality.

(** The four products [targetHeight * 1.2] are whole numbers in binary64. *)
Lemma heightLimit_exact :
  (1080 * 0x1.3333333333333p+0 =? 1296)%float = true
  /\ (720 * 0x1.3333333333333p+0 =? 864)%float = true
  /\ (480 * 0x1.3333333333333p+0 =? 576)%float = true
  /\ (360 * 0x1.3333333333333p+0 =? 432)%float = true.
Proof. repeat split. Qed.

Lemma targetHeight_cases (bandwidth : float) :
  targetHeight bandwidth = 1080%Z \/ targetHeight bandwidth = 720%Z
  \/ targetHeight bandwidth = 480%Z \/ targetHeight bandwidth = 360%Z.
Proof.
  unfold targetHeight.
  destruct (5 <=? bandwidth / 1000000)%float; [tauto|].
  destruct (2.5 <=? bandwidth / 1000000)%float; [tauto|].
  destruct (1 <=? bandwidth / 1000000)%float; tauto.
Qed.

Context {A : Type} (key : A -> Z).

(** Sorting by descending key puts an element of greatest key first and
    keeps exactly the elements it was given. *)
Lemma insertBy_In (x y : A) (l : list A) :
  In y (insertBy (fun a b => (key b - key a)%Z) x l) <-> y = x \/ In y l.
Proof.
  induction l as [|z l IH]; cbn [insertBy].
  - cbn. intuition congruence.
  - destruct (key z - key x <=? 0)%Z; cbn [In]; [intuition congruence|].
    rewrite IH. intuition congruence.
Qed.

Lemma sortBy_In (y : A) (l : list A) :
  In y (sortBy (fun a b => (key b - key a)%Z) l) <-> In y l.
Proof.
  induction l as [|x l IH]; [reflexivity|].
  cbn [sortBy List.fold_right]. fold (sortBy (fun a b => (key b - key a)%Z) l).
  rewrite insertBy_In, IH. cbn [In]. intuition congruence.
Qed.

Lemma sortBy_head_greatest (l : list A) :
  match sortBy (fun a b => (key b - key a)%Z) l with
  | [] => l = []
  | m :: _ => In m l /\ forall x, In x l -> (key x <= key m)%Z
  end.
Proof.
  induction l as [|x l IH]; [reflexivity|].
  cbn [sortBy List.fold_right]. fold (sortBy (fun a b => (key b - key a)%Z) l).
  destruct (sortBy (fun a b => (key b - key a)%Z) l) as [|m rest];
    cbn [insertBy].
  - subst l. split; [left; reflexivity|].
    intros y [<-|[]]. lia.
  - destruct IH as [Hm Hmax].
    destruct (Z.leb_spec (key m - key x) 0) as [Hle|Hgt].
    + split; [left; reflexivity|].
      intros y [<-|Hy]; [lia|]. specialize (Hmax y Hy). lia.
    + split; [right; exact Hm|].
      intros y [<-|Hy]; [lia | exact (Hmax y Hy)].
Qed.

End OptimalQuality.

(** X3. [selectOptimalQuality] answers nothing exactly for an empty track
    list and otherwise one of the given tracks. When some track is within
    1.2 times the target height of the bandwidth, the answer is within it
    and no such track is taller; when none is, the answer is the last
    track of the list. *)
Theorem selectOptimalQuality_greatest_within_target
    (tracks : list Track.t) (bandwidth : float) :
  let target := targetHeight bandwidth in
  (selectOptimalQuality tracks bandwidth = None <-> tracks = [])
  /\ (forall t, selectOptimalQuality tracks bandwidth = Some t -> In t tracks)
  /\ (forall w, In w tracks -> withinTarget target w = true ->
        exists t, selectOptimalQuality tracks bandwidth = Some t
                  /\ withinTarget target t = true
                  /\ forall x, In x tracks -> withinTarget target x = true ->
                               (Track.height x <= Track.height t)%Z)
  /\ ((forall x, In x tracks -> withinTarget target x = false) ->
      selectOptimalQuality tracks bandwidth = last tracks).
Proof.
  intros target. unfold selectOptimalQuality. fold target.
  destruct tracks as [|t0 rest]; [repeat split; try discriminate|].
  { intros w []. }
  set (tracks := t0 :: rest). set (kept := List.filter (withinTarget target) tracks).
  pose proof (sortBy_head_greatest Track.height kept) as Hhead.
  pose proof (sortBy_In Track.height) as Hin.
  destruct (sortBy (fun a b => (Track.height b - Track.height a)%Z) kept)
    as [|m ms] eqn:Es.
  - (* nothing within the target *)
    assert (Hlast : exists z, last tracks = Some z /\ In z tracks).
    { destruct (last tracks) as [z|] eqn:El.
      - exists z. split; [reflexivity|].
        apply list_elem_of_In. apply last_Some_elem_of. exact El.
      - apply last_None in El. discriminate. }
    destruct Hlast as (z & Hz & Hzin). rewrite Hz.
    split; [split; discriminate|].
    split; [intros t [= <-]; exact Hzin|].
    split; [|reflexivity].
    intros w Hw Hwt. exfalso.
    assert (Hk : In w kept) by (apply List.filter_In; split; assumption).
    rewrite Hhead in Hk. exact Hk.
  - destruct Hhead as [Hm Hmax].
    apply List.filter_In in Hm as [Hmin Hmt].
    split; [split; discriminate|].
    split; [intros t [= <-]; exact Hmin|].
    split.
    + intros w _ _. exists m. split; [reflexivity|]. split; [exact Hmt|].
      intros x Hx Hxt. apply Hmax. apply List.filter_In. split; assumption.
    + intros Hnone. rewrite (Hnone m Hmin) in Hmt. discriminate.
Qed.

Lemma selectOptimalQuality_greatest_within_target_witness :
  let ladder := [ Track.mk 0 360 800000; Track.mk 1 720 2800000;
                  Track.mk 2 720 3500000; Track.mk 3 1080 6000000 ] in
  (exists t, selectOptimalQuality ladder 3000000%float = Some t
             /\ Track.height t = 720%Z)
  /\ selectOptimalQuality [Track.mk 9 2160 20000000] 500000%float
     = Some (Track.mk 9 2160 20000000).
Proof.
  intros ladder. split.
  - destruct (selectOptimalQuality_greatest_within_target ladder 3000000%float)
      as (_ & _ & Hbest & _).
    destruct (Hbest (Track.mk 1 720 2800000)) as (t & Ht & Hw & Hmax);
      [right; left; reflexivity | reflexivity |].
    exists t. split; [exact Ht|].
    assert (H1 : (720 <= Track.height t)%Z).
    { apply (Hmax (Track.mk 1 720 2800000));
        [right; left; reflexivity | reflexivity]. }
    unfold withinTarget in Hw. apply Z.leb_le in Hw.
    change (targetHeight 3000000) with 720%Z in Hw.
    destruct (selectOptimalQuality_greatest_within_target ladder 3000000%float)
      as (_ & Hmem & _).
    specialize (Hmem t Ht). cbn in Hmem.
    destruct Hmem as [<-|[<-|[<-|[<-|[]]]]]; cbn in *; lia.
  - destruct (selectOptimalQuality_greatest_within_target
                [Track.mk 9 2160 20000000] 500000%float) as (_ & _ & _ & Hnone).
    rewrite Hnone; [reflexivity|].
    intros x [<-|[]]. reflexivity.
Defined.

(** ** Invariants of the fetch life cycle *)

Section FetchInvariants.

Variable P : PlayerProps.

Lemma run_app (st : PlayerState) (evs evs' : list Event) :
  run P st (evs ++ evs')%list = run P (run P st evs) evs'.
Proof. unfold run. apply fold_left_app. Qed.

(** A property kept by every step is kept by every run. *)
Lemma run_invariant (I : PlayerState -> Prop) (ok : Event -> Prop) :
  (forall st e, I st -> ok e -> I (step P st e)) ->
  forall evs st, I st -> Forall ok evs -> I (run P st evs).
Proof.
  intros Hstep evs. induction evs as [|e evs IH]; intros st Hst Hok;
    [exact Hst|].
  inversion Hok as [|? ? He Hes]; subst.
  cbn [run fold_left]. apply IH; [|exact Hes]. apply Hstep; assumption.
Qed.

Lemma deliver_nothing_pending (st : PlayerState) (i : nat)
    (result : option ProtectedResult) :
  pending st = [] -> step P st (Deliver i result) = st.
Proof. intros Hp. cbn [step]. rewrite Hp. reflexivity. Qed.

(** X4. Free content never asks the backend for a protected URL, whatever
    happens to the player, and its validated source, when there is one, is
    the selected source; a server switch validates the new source at
    once. *)
Theorem free_content_never_fetches (evs : list Event) :
  accessType P = Free ->
  let st := run P initialState evs in
  pending st = []
  /\ (activeSource st = None \/ activeSource st = currentSource st)
  /\ (forall s, activeSource (step P st (ServerChange s)) = Some s).
Proof.
  intros Hfree.
  assert (Hinv : forall st e,
             pending st = []
             /\ (activeSource st = None \/ activeSource st = currentSource st) ->
             True ->
             pending (step P st e) = []
             /\ (activeSource (step P st e) = None
                 \/ activeSource (step P st e) = currentSource (step P st e))).
  { intros st e [Hp Ha] _. destruct e as [srcs| |s|i result].
    - cbn [step]. unfold initDefaultSource.
      destruct (defaultSource srcs); [|split; assumption].
      split; [exact Hp | left; reflexivity].
    - cbn [step]. unfold fetchEffect. rewrite Hfree. cbn.
      destruct (subscriptionLoading P || rentalLoading P);
        [split; assumption|].
      destruct (currentSource st) as [cs|] eqn:Hc.
      + split; [exact Hp | right; cbn; congruence].
      + split; [exact Hp|].
        destruct Ha as [Ha|Ha]; [left; exact Ha | right; congruence].
    - cbn [step]. unfold handleServerChange. rewrite Hfree. cbn.
      split; [exact Hp | right; reflexivity].
    - rewrite deliver_nothing_pending by exact Hp. split; assumption. }
  cbv zeta. split; [|split].
  - apply (run_invariant _ (fun _ => True) Hinv evs initialState);
      [split; [reflexivity | left; reflexivity] | apply Forall_forall; auto].
  - apply (run_invariant _ (fun _ => True) Hinv evs initialState);
      [split; [reflexivity | left; reflexivity] | apply Forall_forall; auto].
  - intros s. cbn [step]. unfold handleServerChange. rewrite Hfree.
    reflexivity.
Qed.

(** X5. On paid content a viewer who is not signed in never causes a
    protected-URL request and never gets a validated source, whatever
    happens to the player. *)
Theorem anonymous_viewer_never_validated (evs : list Event) :
  user P = false -> accessType P <> Free ->
  let st := run P initialState evs in
  pending st = [] /\ activeSource st = None.
Proof.
  intros Hanon Hpaid.
  assert (Hnf : AccessType_eqb (accessType P) Free = false)
    by (destruct (accessType P); [contradiction| |]; reflexivity).
  apply (run_invariant (fun st => pending st = [] /\ activeSource st = None)
           (fun _ => True)); [|split; reflexivity | apply Forall_forall; auto].
  intros st e [Hp Ha] _. destruct e as [srcs| |s|i result].
  - cbn [step]. unfold initDefaultSource.
    destruct (defaultSource srcs); split; assumption || reflexivity.
  - cbn [step]. unfold fetchEffect. rewrite Hnf, Hanon.
    destruct (subscriptionLoading P || rentalLoading P);
      [split; assumption|].
    destruct (currentSource st); [|split; assumption].
    rewrite andb_false_r. destruct (locked P); split; assumption.
  - cbn [step]. unfold handleServerChange. rewrite Hnf, Hanon.
    split; [exact Hp | reflexivity].
  - rewrite deliver_nothing_pending by exact Hp. split; assumption.
Qed.

(** X6. While the gate reports locked, mounting the sources and re-running
    the fetch effect never request a protected URL and never validate a
    source; once a source is selected the effect also ends the loading
    state, so that the lock overlay is what shows. *)
Theorem locked_content_not_fetched (evs : list Event) :
  locked P = true ->
  Forall (fun e => not_server_change e = true) evs ->
  let st := run P initialState evs in
  pending st = [] /\ activeSource st = None
  /\ (is_Some (currentSource st) -> isLoading (step P st FetchEffect) = false).
Proof.
  intros Hlocked Hevs.
  assert (Hgate : (subscriptionLoading P || rentalLoading P = false)
                  /\ AccessType_eqb (accessType P) Free = false).
  { unfold locked, isLocked in Hlocked.
    destruct (subscriptionLoading P), (rentalLoading P), (accessType P);
      cbn in *; try discriminate; split; reflexivity. }
  destruct Hgate as [Hload Hnf].
  assert (Heff : forall st,
             fetchEffect P st =
             match currentSource st with
             | None => st
             | Some _ =>
                 {| currentSource := currentSource st;
                    protectedSource := protectedSource st;
                    accessValidated := accessValidated st;
                    accessError := accessError st;
                    isLoading := false;
                    pending := pending st |}
             end).
  { intros st. unfold fetchEffect. rewrite Hload, Hnf, Hlocked.
    destruct (currentSource st); reflexivity. }
  cbv zeta. split; [|split].
  - apply (run_invariant (fun st => pending st = [] /\ activeSource st = None)
             (fun e => not_server_change e = true));
      [|split; reflexivity | exact Hevs].
    intros st e [Hp Ha] He. destruct e as [srcs| |s|i result];
      try discriminate.
    + cbn [step]. unfold initDefaultSource.
      destruct (defaultSource srcs); split; assumption || reflexivity.
    + cbn [step]. rewrite Heff. destruct (currentSource st); split; assumption.
    + rewrite deliver_nothing_pending by exact Hp. split; assumption.
  - apply (run_invariant (fun st => pending st = [] /\ activeSource st = None)
             (fun e => not_server_change e = true));
      [|split; reflexivity | exact Hevs].
    intros st e [Hp Ha] He. destruct e as [srcs| |s|i result];
      try discriminate.
    + cbn [step]. unfold initDefaultSource.
      destruct (defaultSource srcs); split; assumption || reflexivity.
    + cbn [step]. rewrite Heff. destruct (currentSource st); split; assumption.
    + rewrite deliver_nothing_pending by exact Hp. split; assumption.
  - intros [cs Hcs]. cbn [step]. rewrite Heff, Hcs. reflexivity.
Qed.

End FetchInvariants.

Lemma free_content_never_fetches_witness :
  let freeViewer :=
    {| user := false; accessType := Free; excludeFromPlan := false;
       hasActiveSubscription := false; hasActiveRental := false;
       subscriptionLoading := false; rentalLoading := false |} in
  let st := run freeViewer initialState
              [ InitSources [Scenario.serverA; Scenario.serverB]; FetchEffect;
                ServerChange Scenario.serverB;
                Deliver 0 (Scenario.answerFor Scenario.serverA "https://x.example/a") ] in
  pending st = []
  /\ activeSource (step freeViewer st (ServerChange Scenario.serverA))
     = Some Scenario.serverA.
Proof.
  intros freeViewer st.
  destruct (free_content_never_fetches freeViewer
              [ InitSources [Scenario.serverA; Scenario.serverB]; FetchEffect;
                ServerChange Scenario.serverB;
                Deliver 0 (Scenario.answerFor Scenario.serverA "https://x.example/a") ]
              eq_refl) as (Hp & _ & Hs).
  split; [exact Hp | exact (Hs Scenario.serverA)].
Defined.

Lemma anonymous_viewer_never_validated_witness :
  let anonymous :=
    {| user := false; accessType := Rent; excludeFromPlan := false;
       hasActiveSubscription := false; hasActiveRental := false;
       subscriptionLoading := false; rentalLoading := false |} in
  let st := run anonymous initialState
              [ InitSources [Scenario.serverA; Scenario.serverB]; FetchEffect;
                ServerChange Scenario.serverB; FetchEffect ] in
  pending st = [] /\ activeSource st = None.
Proof.
  intros anonymous st.
  apply (anonymous_viewer_never_validated anonymous
           [ InitSources [Scenario.serverA; Scenario.serverB]; FetchEffect;
             ServerChange Scenario.serverB; FetchEffect ]);
    [reflexivity | discriminate].
Defined.

Lemma locked_content_not_fetched_witness :
  let lockedOut :=
    {| user := true; accessType := Vip; excludeFromPlan := false;
       hasActiveSubscription := false; hasActiveRental := false;
       subscriptionLoading := false; rentalLoading := false |} in
  let st := run lockedOut initialState
              [ InitSources [Scenario.serverA; Scenario.serverB]; FetchEffect ] in
  pending st = [] /\ activeSource st = None.
Proof.
  intros lockedOut st.
  destruct (locked_content_not_fetched lockedOut
              [ InitSources [Scenario.serverA; Scenario.serverB]; FetchEffect ]
              eq_refl) as (Hp & Ha & _).
  - repeat constructor.
  - split; assumption.
Defined.

(** ** Paid URLs come from the backend only *)

Section UrlConfinement.

Variable P : PlayerProps.
Variable videoSources : option (list RawSource.t).
Variable src : option string.
Variable type : StreamType.

Hypothesis paid : accessType P <> Free.

Lemma sources_paid_stripped (s : VideoSource.t) :
  In s (sources videoSources src type (accessType P)) ->
  VideoSource.url s = None /\ VideoSource.quality_urls s = None.
Proof using paid.
  intros Hin. apply list_elem_of_In in Hin.
  apply list_elem_of_lookup in Hin as [i Hi].
  rewrite sources_lookup in Hi.
  destruct (rawSources videoSources src type !! i) as [raw|]; [|discriminate].
  injection Hi as <-. unfold normalizeSource.
  destruct (accessType P); [contradiction| |]; split; reflexivity.
Qed.

Lemma defaultSource_In (srcs : list VideoSource.t) (d : VideoSource.t) :
  defaultSource srcs = Some d -> In d srcs.
Proof.
  unfold defaultSource.
  destruct (List.find _ srcs) as [s|] eqn:E.
  - intros [= <-]. apply List.find_some in E as [Hin _]. exact Hin.
  - destruct srcs as [|s0 rest]; [discriminate|].
    intros [= <-]. left. reflexivity.
Qed.

Lemma answers_of_app (evs evs' : list Event) :
  answers_of (evs ++ evs')%list = (answers_of evs ++ answers_of evs')%list.
Proof.
  induction evs as [|e evs IH]; [reflexivity|].
  destruct e as [l| |s|i [[[] [r|] err]|]]; cbn; rewrite ?IH; reflexivity.
Qed.

(** X7. On paid content, when the player is fed from its own [sources]
    memo, the selected source is always an entry of the memo and carries
    neither a url nor a quality map; a validated source is always the one
    built from a successful backend answer among the events. The page data
    never supplies the playback URL. *)
Theorem paid_urls_only_from_backend (evs : list Event) :
  let srcs := sources videoSources src type (accessType P) in
  Forall (event_from_sources srcs) evs ->
  let st := run P initialState evs in
  (forall s, currentSource st = Some s ->
     In s srcs
     /\ VideoSource.url s = None /\ VideoSource.quality_urls s = None)
  /\ (forall p, activeSource st = Some p ->
        exists r, In r (answers_of evs) /\ p = validatedSource r).
Proof using paid.
  intros srcs.
  assert (Hnf : AccessType_eqb (accessType P) Free = false)
    by (destruct (accessType P); [contradiction| |]; reflexivity).
  set (I := fun (A : list ResultSource.t) (st : PlayerState) =>
              (forall s, currentSource st = Some s -> In s srcs)
              /\ (forall p, protectedSource st = Some p ->
                    exists r, In r A /\ p = validatedSource r)).
  assert (Hmono : forall A B st, I A st -> I (A ++ B)%list st).
  { intros A B st [Hc Hp]. split; [exact Hc|].
    intros p Hpp. destruct (Hp p Hpp) as (r & Hr & ->).
    exists r. split; [apply List.in_or_app; left; exact Hr | reflexivity]. }
  assert (Hstep : forall A st e, I A st -> event_from_sources srcs e ->
                                 I (A ++ answers_of [e])%list (step P st e)).
  { intros A st e HI He. destruct e as [l| |s|i result].
    - cbn in He. subst l. cbn [step answers_of]. rewrite app_nil_r.
      unfold initDefaultSource.
      destruct (defaultSource srcs) as [d|] eqn:Ed; [|exact HI].
      split; cbn [currentSource protectedSource]; [|discriminate].
      intros s [= <-]. apply defaultSource_In, Ed.
    - cbn [step answers_of]. rewrite app_nil_r. destruct HI as [Hc Hp].
      unfold fetchEffect, fetchProtectedSource_call. rewrite Hnf.
      destruct (subscriptionLoading P || rentalLoading P); [split; assumption|].
      destruct (currentSource st) as [cs|] eqn:Ecs; [|split; [congruence|assumption]].
      cbn [negb andb].
      destruct (locked P), (user P); cbn [negb andb];
        (split; cbn [currentSource protectedSource];
         [intros s0 Hs0; apply Hc; congruence | exact Hp]).
    - cbn in He. cbn [step answers_of]. rewrite app_nil_r.
      unfold handleServerChange, fetchProtectedSource_call. rewrite Hnf.
      cbn [negb andb]. destruct (user P); cbn [negb];
        split; cbn [currentSource protectedSource]; try discriminate;
        intros s' [= <-]; exact He.
    - destruct HI as [Hc Hp]. cbn [step].
      destruct (pending st !! i) as [x|].
      + destruct result as [[[] [r|] err]|];
          cbn [fetchProtectedSource_resume answers_of];
          split; cbn [currentSource protectedSource]; try exact Hc;
          try (intros p Hpp; destruct (Hp p Hpp) as (r0 & Hr0 & ->);
               exists r0; split;
               [apply List.in_or_app; left; exact Hr0 | reflexivity]).
        intros p [= <-]. exists r. split; [|reflexivity].
        apply List.in_or_app. right. left. reflexivity.
      + apply Hmono. split; assumption. }
  assert (Hrun : forall evs0 A st, I A st ->
                   Forall (event_from_sources srcs) evs0 ->
                   I (A ++ answers_of evs0)%list (run P st evs0)).
  { induction evs0 as [|e es IH]; intros A st HI Hok.
    - cbn. rewrite app_nil_r. exact HI.
    - inversion Hok as [|? ? He Hes]; subst.
      change (e :: es) with ([e] ++ es)%list.
      rewrite answers_of_app, app_assoc. cbn [run fold_left app].
      apply IH; [|exact Hes]. apply Hstep; assumption. }
  intros Hok st.
  destruct (Hrun evs [] initialState) as [Hc Hp]; [|exact Hok|].
  { split; cbn; discriminate. }
  cbn [app] in Hp. split.
  - intros s Hs. split; [apply Hc, Hs|].
    apply sources_paid_stripped. apply Hc, Hs.
  - intros p Hact. unfold activeSource in Hact.
    destruct (accessValidated st); [|discriminate].
    apply Hp, Hact.
Qed.

End UrlConfinement.

Lemma paid_urls_only_from_backend_witness :
  let evs :=
    [ InitSources [Scenario.serverA; Scenario.serverB]; FetchEffect;
      ServerChange Scenario.serverB;
      Deliver 1 (Scenario.answerFor Scenario.serverB "https://signed.example/b") ] in
  let st := run Scenario.viewer initialState evs in
  (forall s, currentSource st = Some s -> VideoSource.url s = None)
  /\ (forall p, activeSource st = Some p ->
        exists r, In r (answers_of evs) /\ p = validatedSource r).
Proof.
  intros evs st.
  destruct (paid_urls_only_from_backend Scenario.viewer
              (Some [Scenario.rawA; Scenario.rawB]) None Hls
              ltac:(discriminate) evs) as [Hc Hp].
  - constructor; [reflexivity|]. constructor; [exact I|].
    constructor; [right; left; reflexivity|].
    constructor; [exact I|]. constructor.
  - split; [|exact Hp]. intros s Hs. exact (proj1 (proj2 (Hc s Hs))).
Defined.

(** ** The lock overlay *)

(** X8. Whenever the gate reports locked, the overlay offers at least one
    action, and every action it offers is one that unlocks: with the
    subscription (respectively the rental) in hand the gate no longer
    reports locked. *)
Theorem lock_overlay_actions_unlock
    (subscriptionLoading rentalLoading : bool) (accessType : AccessType)
    (excludeFromPlan hasActiveSubscription hasActiveRental : bool) :
  isLocked subscriptionLoading rentalLoading accessType excludeFromPlan
    hasActiveSubscription hasActiveRental = true ->
  (offersSubscribe accessType excludeFromPlan = true
   \/ offersRent accessType = true)
  /\ (offersSubscribe accessType excludeFromPlan = true ->
      isLocked subscriptionLoading rentalLoading accessType excludeFromPlan
        true hasActiveRental = false)
  /\ (offersRent accessType = true ->
      isLocked subscriptionLoading rentalLoading accessType excludeFromPlan
        hasActiveSubscription true = false).
Proof.
  destruct subscriptionLoading, rentalLoading, accessType, excludeFromPlan,
    hasActiveSubscription, hasActiveRental; cbn; intuition congruence.
Qed.

Lemma lock_overlay_actions_unlock_witness :
  offersSubscribe Rent true = false
  /\ offersRent Rent = true
  /\ isLocked false false Rent true true true = false.
Proof.
  destruct (lock_overlay_actions_unlock false false Rent true true false
              eq_refl) as (_ & _ & Hrent).
  split; [reflexivity|]. split; [reflexivity|]. exact (Hrent eq_refl).
Defined.

(** ** From [VideoPlayer] to the player's sources *)

Section VideoPlayerSources.

Variable videoSources : list RawSource.t.
Variable episodes : option (list Episode.t).
Variable currentEpisodeId : option string.
Variable accessType : option AccessType.

(** X9. The tier of the current episode, when it has one, decides what the
    player's sources expose, whatever the tier of the series: under a
    non-free episode no source carries a url or a quality map, under a free
    episode every source keeps the url of its row. There is one source per
    row, in order. *)
Theorem episode_tier_decides_exposure (ep : Episode.t) (a : AccessType) :
  currentEpisode episodes currentEpisodeId = Some ep ->
  Episode.access ep = Some a ->
  length (playerSources videoSources episodes currentEpisodeId accessType)
  = length videoSources
  /\ forall (i : nat) (row : RawSource.t),
       videoSources !! i = Some row ->
       exists out,
         playerSources videoSources episodes currentEpisodeId accessType !! i
         = Some out
         /\ (a = Free -> VideoSource.url out = RawSource.url row)
         /\ (a <> Free ->
             VideoSource.url out = None
             /\ VideoSource.quality_urls out = None).
Proof.
  intros Hep Ha. unfold playerSources, playerAccessType, effectiveAccessType.
  rewrite Hep, Ha. cbn [accessTypeProp default].
  split.
  - rewrite sources_length. cbn [rawSources]. apply length_map.
  - intros i row Hrow. rewrite sources_lookup. cbn [rawSources].
    assert (Hi : List.map convertedSource videoSources !! i
                 = Some (convertedSource row)).
    { change (List.map convertedSource videoSources)
        with (convertedSource <$> videoSources).
      rewrite list_lookup_fmap, Hrow. reflexivity. }
    rewrite Hi. eexists. split; [reflexivity|].
    unfold normalizeSource. split.
    + intros ->. reflexivity.
    + intros Hne. destruct a; [contradiction| |]; split; reflexivity.
Qed.

End VideoPlayerSources.

Lemma episode_tier_decides_exposure_witness :
  let rows := [ Scenario.rawA ] in
  let eps := Some [ Episode.mk "e1" 1 "Pilot" None (Some Free);
                    Episode.mk "e2" 2 "Second" None (Some Vip) ] in
  (exists out, playerSources rows eps (Some "e2") (Some Free) !! 0%nat = Some out
               /\ VideoSource.url out = None)
  /\ (exists out, playerSources rows eps (Some "e1") (Some Vip) !! 0%nat = Some out
                  /\ VideoSource.url out
                     = Some "https://origin.example/a/master.m3u8").
Proof.
  intros rows eps. split.
  - destruct (episode_tier_decides_exposure rows eps (Some "e2") (Some Free)
                (Episode.mk "e2" 2 "Second" None (Some Vip)) Vip
                eq_refl eq_refl) as [_ H].
    destruct (H 0%nat Scenario.rawA eq_refl) as (out & Ho & _ & Hpaid).
    exists out. split; [exact Ho|]. apply Hpaid. discriminate.
  - destruct (episode_tier_decides_exposure rows eps (Some "e1") (Some Vip)
                (Episode.mk "e1" 1 "Pilot" None (Some Free)) Free
                eq_refl eq_refl) as [_ H].
    destruct (H 0%nat Scenario.rawA eq_refl) as (out & Ho & Hfree & _).
    exists out. split; [exact Ho|]. rewrite (Hfree eq_refl). reflexivity.
Defined.

(** ** Saving, finding again and resuming *)

Section SaveAndLoad.

Variable userId : string.
Variables episodeId movieId : option string.

(** The save is for a known content: an episode id or a movie id. *)
Hypothesis content : JS.truthy episodeId || JS.truthy movieId = true.

Lemma or_null_truthy (a : option string) :
  JS.truthy a = true -> or_null a = a.
Proof. unfold or_null. intros ->. reflexivity. Qed.

Lemma inserted_row_matches (id : string) (p d : option float)
    (c : option bool) (ts : string) :
  historyMatch userId episodeId movieId
    (WatchRow.mk id userId (or_null episodeId) (or_null movieId) p d c ts)
  = true.
Proof using content.
  unfold historyMatch. cbn [WatchRow.user_id WatchRow.episode_id
                              WatchRow.movie_id].
  rewrite String.eqb_refl. cbn [andb].
  destruct (JS.truthy episodeId) eqn:Ee.
  - rewrite (or_null_truthy _ Ee). apply bool_decide_eq_true. reflexivity.
  - cbn [orb] in content. rewrite (or_null_truthy _ content).
    apply bool_decide_eq_true. split; [|reflexivity].
    destruct movieId; [eexists; reflexivity | discriminate].
Qed.

Lemma updateRow_matches (id : string) (p d : float) (c : bool) (ts : string)
    (r : WatchRow.t) :
  historyMatch userId episodeId movieId (updateRow id p d c ts r)
  = historyMatch userId episodeId movieId r.
Proof.
  unfold updateRow. destruct (String.eqb (WatchRow.id r) id); reflexivity.
Qed.

Lemma filter_map_same {A : Type} (f : A -> bool) (g : A -> A) (l : list A) :
  (forall x, f (g x) = f x) ->
  List.filter f (List.map g l) = List.map g (List.filter f l).
Proof.
  intros Hfg. induction l as [|x l IH]; [reflexivity|].
  cbn [List.map List.filter]. rewrite Hfg.
  destruct (f x); cbn [List.map]; rewrite IH; reflexivity.
Qed.

Variable ctx : SaveCtx.
Variable v : Video.t.
Variable db : list WatchRow.t.

Hypothesis known_nonzero : is_zero (Video.duration v) = false.
Hypothesis known_number : is_nan (Video.duration v) = false.

(** At most one row of the table is the viewer's for this content. *)
Hypothesis at_most_one :
  (length (List.filter (historyMatch userId episodeId movieId) db) <= 1)%nat.

Lemma saved_row_unique :
  let db' := saveProgress ctx userId episodeId movieId (Some v) db in
  exists r,
    List.filter (historyMatch userId episodeId movieId) db' = [r]
    /\ selectHistory userId episodeId movieId db' = Some r
    /\ WatchRow.progress r = Some (Video.currentTime v)
    /\ WatchRow.completed r
       = Some (Video.duration v - Video.currentTime v <? 30)%float.
Proof using content known_nonzero known_number at_most_one.
  cbv zeta. unfold saveProgress, number_falsy, completedFlag.
  rewrite known_nonzero, known_number. cbn [orb].
  destruct (List.filter (historyMatch userId episodeId movieId) db)
    as [|e [|e' rest]] eqn:Ef.
  - assert (Hsel : selectHistory userId episodeId movieId db = None)
      by (unfold selectHistory; rewrite Ef; reflexivity).
    rewrite Hsel. eexists.
    assert (Hf : forall row,
               historyMatch userId episodeId movieId row = true ->
               List.filter (historyMatch userId episodeId movieId)
                 (db ++ [row]) = [row]).
    { intros row Hrow. rewrite List.filter_app, Ef. cbn [List.filter app].
      rewrite Hrow. reflexivity. }
    split; [apply Hf, inserted_row_matches|].
    split; [unfold selectHistory; rewrite Hf by apply inserted_row_matches;
            reflexivity|].
    repeat split.
  - assert (Hsel : selectHistory userId episodeId movieId db = Some e)
      by (unfold selectHistory; rewrite Ef; reflexivity).
    rewrite Hsel.
    assert (Hf : forall p d c ts,
               List.filter (historyMatch userId episodeId movieId)
                 (List.map (updateRow (WatchRow.id e) p d c ts) db)
               = [updateRow (WatchRow.id e) p d c ts e]).
    { intros p d c ts.
      rewrite filter_map_same by (intros x; apply updateRow_matches).
      rewrite Ef. reflexivity. }
    eexists. split; [apply Hf|].
    split; [unfold selectHistory; rewrite Hf; reflexivity|].
    unfold updateRow. rewrite String.eqb_refl. repeat split.
  - cbn [length] in at_most_one. lia.
Qed.

(** X10. Save, then query: when at most one row is the viewer's for this
    content, the table after a save holds exactly one such row, the query
    finds it, and it carries the completed flag of that save. *)
Theorem save_then_select :
  let db' := saveProgress ctx userId episodeId movieId (Some v) db in
  exists r,
    List.filter (historyMatch userId episodeId movieId) db' = [r]
    /\ selectHistory userId episodeId movieId db' = Some r
    /\ savedFor userId episodeId movieId
         (Video.duration v - Video.currentTime v <? 30)%float r.
Proof using content known_nonzero known_number at_most_one.
  cbv zeta. destruct saved_row_unique as (r & Hf & Hsel & _ & Hc).
  exists r. split; [exact Hf|]. split; [exact Hsel|].
  assert (Hm : historyMatch userId episodeId movieId r = true).
  { assert (Hin : In r [r]) by (left; reflexivity).
    rewrite <- Hf in Hin. apply List.filter_In in Hin. exact (proj2 Hin). }
  apply historyMatch_columns in Hm as [Hu Hcols].
  repeat split; assumption.
Qed.

(** X11. After such a save, no later save adds a row: whatever the element
    then reports, the table keeps its length. *)
Theorem later_saves_update_in_place (ctx' : SaveCtx)
    (video' : option Video.t) :
  let db' := saveProgress ctx userId episodeId movieId (Some v) db in
  length (saveProgress ctx' userId episodeId movieId video' db') = length db'.
Proof using content known_nonzero known_number at_most_one.
  cbv zeta. destruct saved_row_unique as (r & _ & Hsel & _).
  set (db' := saveProgress ctx userId episodeId movieId (Some v) db) in *.
  unfold saveProgress at 1. destruct video' as [v'|]; [|reflexivity].
  destruct (number_falsy (Video.duration v') || is_nan (Video.duration v'));
    [reflexivity|].
  rewrite Hsel. apply length_map.
Qed.

(** X12. Save, then mount again: the position offered for resuming is the
    saved one when the save was not marked completed and the position
    exceeds 10 seconds, and none otherwise. *)
Theorem save_then_resume :
  let db' := saveProgress ctx userId episodeId movieId (Some v) db in
  savedProgressAfterLoad (Some userId) episodeId movieId db'
  = if negb (Video.duration v - Video.currentTime v <? 30)%float
       && (10 <? Video.currentTime v)%float
    then Some (Video.currentTime v)
    else None.
Proof using content known_nonzero known_number at_most_one.
  cbv zeta. destruct saved_row_unique as (r & _ & Hsel & Hp & Hc).
  unfold savedProgressAfterLoad. rewrite content, Hsel.
  unfold loadSavedProgress. rewrite Hp, Hc. reflexivity.
Qed.

End SaveAndLoad.

Section DuplicateRows.

Variable ctx : SaveCtx.
Variable userId : string.
Variables episodeId movieId : option string.
Variable v : Video.t.
Variable db : list WatchRow.t.

(** X13. When two or more rows are already the viewer's for this content,
    the query answers none of them, so a save with a known duration
    updates nothing and appends one more row of that viewer for that
    content, with the completed flag of the save: every later save grows
    the table again. *)
Theorem duplicate_rows_grow :
  JS.truthy episodeId || JS.truthy movieId = true ->
  is_zero (Video.duration v) = false ->
  is_nan (Video.duration v) = false ->
  (2 <= length (List.filter (historyMatch userId episodeId movieId) db))%nat ->
  let db' := saveProgress ctx userId episodeId movieId (Some v) db in
  (exists r, db' = (db ++ [r])%list
             /\ savedFor userId episodeId movieId
                  (Video.duration v - Video.currentTime v <? 30)%float r)
  /\ length (List.filter (historyMatch userId episodeId movieId) db')
     = S (length (List.filter (historyMatch userId episodeId movieId) db)).
Proof.
  intros Hcontent Hz Hn Hdup. cbv zeta.
  unfold saveProgress, number_falsy, completedFlag. rewrite Hz, Hn. cbn [orb].
  unfold selectHistory.
  destruct (List.filter (historyMatch userId episodeId movieId) db)
    as [|e [|e' rest]] eqn:Ef; cbn [length] in Hdup; try lia.
  cbn [maybeSingle]. split.
  - eexists. split; [reflexivity|].
    pose proof (inserted_row_matches userId episodeId movieId Hcontent
                  (newId ctx) (Some (Video.currentTime v))
                  (Some (Video.duration v))
                  (Some (Video.duration v - Video.currentTime v <? 30)%float)
                  (defaultTimestamp ctx)) as Hm.
    apply historyMatch_columns in Hm as [Hu Hcols].
    repeat split; assumption.
  - rewrite List.filter_app, Ef. cbn [List.filter].
    rewrite (inserted_row_matches userId episodeId movieId Hcontent).
    rewrite length_app. cbn [length]. lia.
Qed.

End DuplicateRows.

Lemma save_then_select_witness :
  let ctx := {| now := "2024-05-01T10:00:00.000Z"; newId := "w2";
                defaultTimestamp := "2024-05-01T10:00:00.000Z" |} in
  let v := Video.mk 900%float 5400%float 4 false in
  let other := WatchRow.mk "w1" "u2" None (Some "m1") (Some 12%float)
                 (Some 5400%float) (Some false) "2024-04-30T21:00:00.000Z" in
  exists r,
    selectHistory "u1" None (Some "m1")
      (saveProgress ctx "u1" None (Some "m1") (Some v) [other]) = Some r
    /\ savedFor "u1" None (Some "m1") false r.
Proof.
  intros ctx v other.
  destruct (save_then_select "u1" None (Some "m1") eq_refl ctx v [other]
              eq_refl eq_refl) as (r & _ & Hsel & Hw).
  - vm_compute. lia.
  - exists r. split; [exact Hsel | exact Hw].
Defined.

Lemma later_saves_update_in_place_witness :
  let ctx := {| now := "2024-05-01T10:00:00.000Z"; newId := "w2";
                defaultTimestamp := "2024-05-01T10:00:00.000Z" |} in
  let ctx' := {| now := "2024-05-01T10:00:10.000Z"; newId := "w3";
                 defaultTimestamp := "2024-05-01T10:00:10.000Z" |} in
  let v := Video.mk 900%float 5400%float 4 false in
  let v' := Video.mk 910%float 5400%float 4 false in
  length (saveProgress ctx' "u1" (Some "e7") None (Some v')
            (saveProgress ctx "u1" (Some "e7") None (Some v) []))
  = 1%nat.
Proof.
  intros ctx ctx' v v'.
  rewrite (later_saves_update_in_place "u1" (Some "e7") None eq_refl ctx v []
             eq_refl eq_refl); [reflexivity | vm_compute; lia].
Defined.

Lemma save_then_resume_witness :
  let ctx := {| now := "2024-05-01T10:00:00.000Z"; newId := "w2";
                defaultTimestamp := "2024-05-01T10:00:00.000Z" |} in
  savedProgressAfterLoad (Some "u1") None (Some "m1")
    (saveProgress ctx "u1" None (Some "m1")
       (Some (Video.mk 900%float 5400%float 4 false)) [])
  = Some 900%float
  /\ savedProgressAfterLoad (Some "u1") None (Some "m1")
       (saveProgress ctx "u1" None (Some "m1")
          (Some (Video.mk 5390%float 5400%float 4 false)) [])
     = None.
Proof.
  intros ctx. split.
  - rewrite (save_then_resume "u1" None (Some "m1") eq_refl ctx
               (Video.mk 900%float 5400%float 4 false) [] eq_refl eq_refl);
      [reflexivity | vm_compute; lia].
  - rewrite (save_then_resume "u1" None (Some "m1") eq_refl ctx
               (Video.mk 5390%float 5400%float 4 false) [] eq_refl eq_refl);
      [reflexivity | vm_compute; lia].
Defined.

Lemma duplicate_rows_grow_witness :
  let ctx := {| now := "2024-05-01T10:00:00.000Z"; newId := "w3";
                defaultTimestamp := "2024-05-01T10:00:00.000Z" |} in
  let row id := WatchRow.mk id "u1" None (Some "m1") (Some 12%float)
                  (Some 5400%float) (Some false) "2024-04-30T21:00:00.000Z" in
  length (List.filter (historyMatch "u1" None (Some "m1"))
            (saveProgress ctx "u1" None (Some "m1")
               (Some (Video.mk 900%float 5400%float 4 false))
               [row "w1"; row "w2"]))
  = 3%nat.
Proof.
  intros ctx row.
  destruct (duplicate_rows_grow ctx "u1" None (Some "m1")
              (Video.mk 900%float 5400%float 4 false) [row "w1"; row "w2"]
              eq_refl eq_refl eq_refl) as [_ Hlen].
  - vm_compute. lia.
  - rewrite Hlen. reflexivity.
Defined.

(** ** Skipping stays within the timeline *)

Section Skipping.

Lemma ltb_asym (x y : float) :
  (x <? y)%float = true -> (y <? x)%float = false.
Proof.
  intros H. apply leb_not_ltb. rewrite leb_spec. rewrite ltb_spec in H.
  unfold SFleb, SFltb in *.
  destruct (SFcompare (Prim2SF x) (Prim2SF y)) as [[| |]|];
    try discriminate. reflexivity.
Qed.

Lemma ltb_irrefl (x : float) : (x <? x)%float = false.
Proof.
  destruct (x <? x)%float eqn:E; [|reflexivity].
  rewrite (ltb_asym x x E) in E. discriminate.
Qed.

Lemma ltb_nan_r (x : float) : (x <? nan)%float = false.
Proof.
  rewrite ltb_spec. unfold SFltb.
  change (Prim2SF nan) with S754_nan.
  destruct (Prim2SF x); reflexivity.
Qed.

(** X14. Skipping never leaves the timeline on either side: the position
    [skipBackward] seeks to is never below zero, and the position
    [skipForward] seeks to is never beyond the duration the player
    knows. *)
Theorem skip_targets_within_timeline (duration currentTime : float) :
  (skipBackwardTarget currentTime <? 0)%float = false
  /\ (duration <? skipForwardTarget duration currentTime)%float = false.
Proof.
  unfold skipBackwardTarget, skipForwardTarget, math_max, math_min. split.
  - change (is_nan 0) with false. cbn [orb].
    destruct (is_nan (currentTime - 10)); [reflexivity|].
    destruct (0 <? currentTime - 10)%float eqn:E1; [apply ltb_asym, E1|].
    destruct (currentTime - 10 <? 0)%float; reflexivity.
  - destruct (is_nan duration || is_nan (currentTime + 10));
      [apply ltb_nan_r|].
    destruct (duration <? currentTime + 10)%float eqn:E1;
      [apply ltb_irrefl|].
    destruct (currentTime + 10 <? duration)%float; [exact E1|].
    destruct (get_sign duration); [apply ltb_irrefl | exact E1].
Qed.

End Skipping.

(** ** Failed answers *)



(** ** More on the stream-kind resolver *)

Section NormalizeTypeMore.

(** X16. [normalizeType] never answers ["embed"], although its type allows
    it, and its answer is stable: resolving the name of the answer again,
    with any URL, gives the same kind. *)
Theorem normalizeType_stable (rawType url url' : option string) :
  normalizeType rawType url <> Embed
  /\ normalizeType (Some (StreamType_name (normalizeType rawType url))) url'
     = normalizeType rawType url.
Proof.
  assert (H : normalizeType rawType url = Iframe
              \/ normalizeType rawType url = Mp4
              \/ normalizeType rawType url = Hls
              \/ normalizeType rawType url = Dash).
  { unfold normalizeType.
    repeat match goal with
           | |- context [if ?b then _ else _] => destruct b
           end; tauto. }
  destruct H as [H|[H|[H|H]]]; rewrite H; split;
    try discriminate; reflexivity.
Qed.

Lemma lower_space (c : ascii) :
  JS.is_space c = true -> JS.lower_char c = c.
Proof.
  destruct c as [[] [] [] [] [] [] [] []]; intros H;
    try reflexivity; discriminate H.
Qed.

Lemma toLowerCase_app (a b : string) :
  JS.toLowerCase (a ++ b) = JS.toLowerCase a ++ JS.toLowerCase b.
Proof.
  induction a as [|c a IH]; [reflexivity|].
  change (String c a ++ b) with (String c (a ++ b)).
  cbn [JS.toLowerCase]. rewrite IH. reflexivity.
Qed.

Lemma toLowerCase_space (w : string) :
  all_space w = true -> JS.toLowerCase w = w.
Proof.
  induction w as [|c w IH]; [reflexivity|].
  cbn [all_space JS.toLowerCase]. intros H.
  apply andb_true_iff in H as [Hc Hw].
  rewrite (lower_space c Hc), (IH Hw). reflexivity.
Qed.

Lemma trimStart_space (w s : string) :
  all_space w = true -> JS.trimStart (w ++ s) = JS.trimStart s.
Proof.
  induction w as [|c w IH]; [reflexivity|].
  cbn [all_space]. intros H. apply andb_true_iff in H as [Hc Hw].
  change (String c w ++ s) with (String c (w ++ s)).
  cbn [JS.trimStart]. rewrite Hc. apply IH, Hw.
Qed.

Lemma trimEnd_all_space (w : string) :
  all_space w = true -> JS.trimEnd w = "".
Proof.
  induction w as [|c w IH]; [reflexivity|].
  cbn [all_space JS.trimEnd]. intros H.
  apply andb_true_iff in H as [Hc Hw]. rewrite (IH Hw), Hc. reflexivity.
Qed.

Lemma trimEnd_space (s w : string) :
  all_space w = true -> JS.trimEnd (s ++ w) = JS.trimEnd s.
Proof.
  intros Hw. induction s as [|c s IH]; [apply trimEnd_all_space, Hw|].
  change (String c s ++ w) with (String c (s ++ w)).
  cbn [JS.trimEnd]. rewrite IH. reflexivity.
Qed.

Lemma trim_space (w1 s w2 : string) :
  all_space w1 = true -> all_space w2 = true ->
  JS.trim (w1 ++ s ++ w2) = JS.trim s.
Proof.
  intros H1 H2. unfold JS.trim. rewrite (trimStart_space w1 _ H1).
  induction s as [|c s IH].
  - change ("" ++ w2) with w2.
    assert (Hw : JS.trimStart w2 = "").
    { clear -H2. induction w2 as [|c w IH]; [reflexivity|].
      cbn [all_space] in H2. apply andb_true_iff in H2 as [Hc Hw].
      cbn [JS.trimStart]. rewrite Hc. apply IH, Hw. }
    rewrite Hw. reflexivity.
  - change (String c s ++ w2) with (String c (s ++ w2)).
    cbn [JS.trimStart]. destruct (JS.is_space c); [exact IH|].
    change (String c (s ++ w2)) with (String c s ++ w2).
    apply trimEnd_space, H2.
Qed.

(** X17. White space around the declared tag is ignored: a tag padded with
    white space on either side resolves exactly like the bare tag, for
    every URL. *)
Theorem normalizeType_ignores_padding (w1 t w2 : string)
    (url : option string) :
  all_space w1 = true -> all_space w2 = true ->
  normalizeType (Some (w1 ++ t ++ w2)) url = normalizeType (Some t) url.
Proof.
  intros H1 H2. unfold normalizeType. cbn [JS.or_empty].
  rewrite !toLowerCase_app, (toLowerCase_space w1 H1),
    (toLowerCase_space w2 H2), (trim_space w1 _ w2 H1 H2).
  reflexivity.
Qed.

End NormalizeTypeMore.

(** ** The resolution order, up to case and padding *)

Section TagRecognition.

Lemma is_space_lower (c : ascii) :
  JS.is_space (JS.lower_char c) = JS.is_space c.
Proof. destruct c as [[] [] [] [] [] [] [] []]; reflexivity. Qed.

Lemma all_space_lower (s : string) :
  all_space (JS.toLowerCase s) = all_space s.
Proof.
  induction s as [|c s IH]; [reflexivity|].
  cbn [JS.toLowerCase all_space]. rewrite is_space_lower, IH. reflexivity.
Qed.

(** A lower-cased string splits where its original does. *)
Lemma toLowerCase_split (t a' b' : string) :
  JS.toLowerCase t = a' ++ b' ->
  exists a b, t = a ++ b /\ JS.toLowerCase a = a' /\ JS.toLowerCase b = b'.
Proof.
  revert t. induction a' as [|c a' IH]; intros t H.
  - exists "", t. repeat split. exact H.
  - destruct t as [|d t]; [discriminate|].
    cbn [JS.toLowerCase] in H.
    change (String c a' ++ b') with (String c (a' ++ b')) in H.
    injection H as Hc Ht. destruct (IH t Ht) as (a & b & -> & Ha & Hb).
    exists (String d a), b. repeat split; [|exact Hb].
    cbn [JS.toLowerCase]. rewrite Hc, Ha. reflexivity.
Qed.

Lemma trimStart_split (s : string) :
  exists w, s = w ++ JS.trimStart s /\ all_space w = true.
Proof.
  induction s as [|c s IH]; [exists ""; split; reflexivity|].
  cbn [JS.trimStart]. destruct (JS.is_space c) eqn:Ec.
  - destruct IH as (w & Hw & Hsp). exists (String c w). split.
    + change (String c w ++ JS.trimStart s)
        with (String c (w ++ JS.trimStart s)).
      rewrite <- Hw. reflexivity.
    + cbn [all_space]. rewrite Ec, Hsp. reflexivity.
  - exists "". split; reflexivity.
Qed.

Lemma trimEnd_split (s : string) :
  exists w, s = JS.trimEnd s ++ w /\ all_space w = true.
Proof.
  induction s as [|c s IH]; [exists ""; split; reflexivity|].
  destruct IH as (w & Hw & Hsp). cbn [JS.trimEnd].
  destruct (JS.trimEnd s) as [|d r] eqn:Et.
  - change ("" ++ w) with w in Hw. subst s.
    destruct (JS.is_space c) eqn:Ec.
    + exists (String c w). split; [reflexivity|].
      cbn [all_space]. rewrite Ec, Hsp. reflexivity.
    + exists w. split; [reflexivity | exact Hsp].
  - exists w. split; [|exact Hsp].
    change (String c (String d r) ++ w) with (String c (String d r ++ w)).
    rewrite <- Hw. reflexivity.
Qed.

(** Every tag is white space, a core, white space, the lower-cased core
    being the canonical tag. *)
Lemma canonicalTag_split (t : string) :
  exists w1 core w2,
    t = w1 ++ core ++ w2
    /\ all_space w1 = true /\ all_space w2 = true
    /\ JS.toLowerCase core = canonicalTag (Some t).
Proof.
  unfold canonicalTag, JS.trim. cbn [JS.or_empty].
  destruct (trimStart_split (JS.toLowerCase t)) as (v1 & H1 & Hv1).
  destruct (trimEnd_split (JS.trimStart (JS.toLowerCase t)))
    as (v2 & H2 & Hv2).
  destruct (toLowerCase_split t _ _ H1) as (a & r & -> & Ha & Hr).
  rewrite H2 in Hr.
  destruct (toLowerCase_split r _ _ Hr) as (b & c & -> & Hb & Hc).
  exists a, b, c. split; [reflexivity|].
  split; [rewrite <- all_space_lower, Ha; exact Hv1|].
  split; [rewrite <- all_space_lower, Hc; exact Hv2|].
  exact Hb.
Qed.

Lemma tag_is_canonical (t tag : string) :
  tag_is t tag -> canonicalTag (Some t) = canonicalTag (Some tag).
Proof.
  intros (w1 & core & w2 & -> & H1 & H2 & Hcore).
  unfold canonicalTag. cbn [JS.or_empty].
  rewrite !toLowerCase_app, (toLowerCase_space w1 H1),
    (toLowerCase_space w2 H2), (trim_space w1 _ w2 H1 H2).
  unfold eq_nocase in Hcore. rewrite Hcore. reflexivity.
Qed.

Lemma canonical_tag_is (t tag : string) :
  JS.toLowerCase tag = tag ->
  canonicalTag (Some t) = tag -> tag_is t tag.
Proof.
  intros Hlow Hcan.
  destruct (canonicalTag_split t) as (w1 & core & w2 & Ht & H1 & H2 & Hc).
  exists w1, core, w2. repeat split; try assumption.
  unfold eq_nocase. rewrite Hc, Hcan, Hlow. reflexivity.
Qed.

(** The resolver looks at the tag through its canonical form only. *)
Lemma normalizeType_canonical (r1 r2 url : option string) :
  canonicalTag r1 = canonicalTag r2 ->
  normalizeType r1 url = normalizeType r2 url.
Proof.
  unfold normalizeType, canonicalTag. intros ->. reflexivity.
Qed.

(** A tag that is none of the six, up to case and padding, is one the
    resolver does not recognise; so is an absent tag. *)
Lemma unknown_unrecognised (rawType : option string) :
  rawType = None \/ (exists t, rawType = Some t /\ ~ known_tag t) ->
  unrecognised rawType.
Proof.
  intros [->|(t & -> & Hun)].
  - repeat split; discriminate.
  - unfold unrecognised, known_tag in *.
    repeat split; intros Hc; apply Hun;
      apply canonical_tag_is in Hc; try reflexivity; tauto.
Qed.

(** C5, amended. A declared tag that is, up to letter case and surrounding
    white space, one of embed, iframe, mp4, hls, m3u8 or dash decides the
    kind whatever the URL is (embed and iframe give the embed kind, written
    ["iframe"]; mp4 the file kind; hls and m3u8 adaptive HLS; dash adaptive
    DASH). When the tag is absent or is none of the six up to letter case
    and surrounding white space, the lower-cased URL decides: the suffix
    .m3u8 gives HLS, .mpd DASH, .mp4 the file kind; failing those, a known
    embed-host substring gives the embed kind; failing that, HLS. *)
Theorem normalizeType_resolution (t : string) (rawType url : option string) :
  let u := JS.toLowerCase (JS.or_empty url) in
  (tag_is t "embed" \/ tag_is t "iframe" ->
     normalizeType (Some t) url = Iframe)
  /\ (tag_is t "mp4" -> normalizeType (Some t) url = Mp4)
  /\ (tag_is t "hls" \/ tag_is t "m3u8" ->
        normalizeType (Some t) url = Hls)
  /\ (tag_is t "dash" -> normalizeType (Some t) url = Dash)
  /\ (rawType = None \/ (exists t', rawType = Some t' /\ ~ known_tag t') ->
        (has_suffix u ".m3u8" -> normalizeType rawType url = Hls)
        /\ (has_suffix u ".mpd" -> normalizeType rawType url = Dash)
        /\ (has_suffix u ".mp4" -> normalizeType rawType url = Mp4)
        /\ (~ has_suffix u ".m3u8" -> ~ has_suffix u ".mpd" ->
            ~ has_suffix u ".mp4" ->
              (embed_host u -> normalizeType rawType url = Iframe)
              /\ (~ embed_host u -> normalizeType rawType url = Hls))).
Proof.
  intros u.
  assert (Htag : forall tag, tag_is t tag ->
            normalizeType (Some t) url = normalizeType (Some tag) url).
  { intros tag H. apply normalizeType_canonical, tag_is_canonical, H. }
  split; [intros [H|H]; rewrite (Htag _ H); reflexivity|].
  split; [intros H; rewrite (Htag _ H); reflexivity|].
  split; [intros [H|H]; rewrite (Htag _ H); reflexivity|].
  split; [intros H; rewrite (Htag _ H); reflexivity|].
  intros Hun. apply unknown_unrecognised in Hun.
  exact (proj2 (proj2 (proj2 (proj2
           (normalizeType_by_canonical_tag "" rawType url)))) Hun).
Qed.

(** Refutes [has_suffix s suf] for concrete strings. *)
Ltac no_suffix :=
  let H := fresh in
  intros H; apply endsWith_spec in H; vm_compute in H; discriminate H.

Lemma normalizeType_resolution_witness :
  normalizeType (Some "M3U8") (Some "https://cdn.example/movie.mp4") = Hls
  /\ normalizeType (Some " Embed ") (Some "https://cdn.example/a.mpd") = Iframe
  /\ normalizeType (Some "video") (Some "https://CDN.example/A.MPD") = Dash
  /\ normalizeType None (Some "https://youtu.be/abc") = Iframe
  /\ normalizeType None (Some "https://cdn.example/stream") = Hls.
Proof.
  pose proof (normalizeType_resolution "M3U8" None
                (Some "https://cdn.example/movie.mp4")) as (_ & _ & H1 & _).
  pose proof (normalizeType_resolution " Embed " None
                (Some "https://cdn.example/a.mpd")) as (H2 & _).
  pose proof (normalizeType_resolution "" (Some "video")
                (Some "https://CDN.example/A.MPD")) as (_ & _ & _ & _ & H3).
  pose proof (normalizeType_resolution "" None
                (Some "https://youtu.be/abc")) as (_ & _ & _ & _ & H4).
  pose proof (normalizeType_resolution "" None
                (Some "https://cdn.example/stream")) as (_ & _ & _ & _ & H5).
  split.
  { apply H1. right. exists "", "M3U8", "". repeat split. }
  split.
  { apply H2. left. exists " ", "Embed", " ". repeat split. }
  split.
  { apply H3.
    - right. exists "video". split; [reflexivity|].
      intros Hk. unfold known_tag in Hk.
      repeat (destruct Hk as [Hk|Hk];
              [apply tag_is_canonical in Hk; vm_compute in Hk; discriminate|]).
      apply tag_is_canonical in Hk. vm_compute in Hk. discriminate.
    - exists "https://cdn.example/a". reflexivity. }
  split.
  { apply H4; [left; reflexivity | no_suffix .. |].
    right; left. exists "https://", "/abc". reflexivity. }
  apply H5; [left; reflexivity | no_suffix .. |].
  intros He. apply embed_host_spec in He. discriminate.
Defined.

(** C5, as stated, fails on a padded tag: ["  MP4 "] is none of the six
    tags up to letter case and the URL ends in .m3u8, yet the resolver
    answers the file kind instead of falling back to the URL. *)
Lemma padded_tag_decides_kind :
  let t := "  MP4 " in
  let url := "https://cdn.example/live.m3u8" in
  ~ (eq_nocase t "embed" \/ eq_nocase t "iframe" \/ eq_nocase t "mp4"
     \/ eq_nocase t "hls" \/ eq_nocase t "m3u8" \/ eq_nocase t "dash")
  /\ has_suffix (JS.toLowerCase url) ".m3u8"
  /\ normalizeType (Some t) (Some url) = Mp4
  /\ normalizeType (Some t) (Some url) <> Hls.
Proof.
  intros t url. split; [|split; [|split]].
  - unfold eq_nocase. vm_compute.
    intros [H|[H|[H|[H|[H|H]]]]]; discriminate H.
  - exists "https://cdn.example/live". reflexivity.
  - reflexivity.
  - discriminate.
Qed.

End TagRecognition.

Lemma normalizeType_ignores_padding_witness :
  normalizeType (Some "  MP4 ") (Some "https://cdn.example/live.m3u8") = Mp4.
Proof.
  apply (eq_trans (normalizeType_ignores_padding "  " "MP4" " "
                     (Some "https://cdn.example/live.m3u8") eq_refl eq_refl)).
  reflexivity.
Defined.

(** ** Quality labels and the file URL *)

Section QualityChoice.

Lemma findMatchingQualityKey_first_witness :
  (forall k,
      findMatchingQualityKey ["1080p"; "720p"; "720"] (Some "720") = Some k ->
      digitsOf k = "720")
  /\ findMatchingQualityKey ["1080p"; "720p"; "720"] None = None.
Proof.
  destruct (findMatchingQualityKey_first ["1080p"; "720p"; "720"] "720"
              ltac:(discriminate)) as (Hsome & _ & Hnone & _).
  split; [|exact Hnone].
  intros k Hk. destruct (Hsome k Hk) as (b & a & _ & Hd & _). exact Hd.
Defined.

Lemma getMp4Url_sound_witness :
  let m := [ ("1080p", "https://cdn.example/1080.mp4");
             ("720", "https://cdn.example/720.mp4") ] in
  getMp4Url m "1080p" = Some (QualityMap.Url "https://cdn.example/1080.mp4")
  /\ (forall w, getMp4Url m "720p" = Some w ->
        exists u k, w = QualityMap.Url u /\ u <> ""
                    /\ In (k, u) m /\ digitsOf k = "720").
Proof.
  intros m. destruct (getMp4Url_sound m "1080p") as (_ & _ & Hhit).
  destruct (getMp4Url_sound m "720p") as (_ & Hown & _).
  split.
  - apply Hhit; [reflexivity | discriminate].
  - intros w Hw. exact (Hown eq_refl eq_refl w Hw).
Defined.

(** X18. [getMp4Url] finds nothing when no key of the map has the digits
    of the requested quality and neither the requested label nor that
    label without its trailing p names an inherited property. When the
    map has no empty key and no empty URL, it finds a value for every
    non-empty request whose digits some key has. A request that names an
    inherited property and is not a key of the map gets the inherited
    value, whatever the map holds. *)
Theorem getMp4Url_found_iff_digits (mp4Urls : QualityMap.t)
    (quality : string) :
  (Forall (fun k => digitsOf k <> digitsOf quality) (QualityMap.keys mp4Urls) ->
   QualityMap.inherited quality = false ->
   QualityMap.inherited (stripTrailingP quality) = false ->
   getMp4Url mp4Urls quality = None)
  /\ (quality <> "" ->
      Forall (fun e => fst e <> "" /\ snd e <> "") mp4Urls ->
      Exists (fun k => digitsOf k = digitsOf quality) (QualityMap.keys mp4Urls) ->
      is_Some (getMp4Url mp4Urls quality))
  /\ (QualityMap.inherited quality = true ->
      ~ In quality (QualityMap.keys mp4Urls) ->
      getMp4Url mp4Urls quality = Some (QualityMap.Inherited quality)).
Proof.
  split; [|split].
  - intros Hnone Hq Hs.
    destruct (getMp4Url mp4Urls quality) as [w|] eqn:E; [|reflexivity].
    exfalso.
    destruct (getMp4Url_sound_aux _ _ _ E)
      as [(u & k & _ & _ & Hin & Hd)|(name & _ & [->| ->] & Hi & _)];
      [|congruence|congruence].
    rewrite Forall_forall in Hnone. apply (Hnone k); [|exact Hd].
    apply list_elem_of_In. apply List.in_map_iff. exists (k, u).
    split; [reflexivity | exact Hin].
  - intros Hq Hwf Hex. unfold getMp4Url.
    destruct (truthyValue (QualityMap.get mp4Urls quality)) as [w|];
      [eexists; reflexivity|].
    unfold findMatchingQualityKey.
    assert (Ht : JS.truthy (Some quality) = true)
      by (destruct quality; [contradiction | reflexivity]).
    rewrite Ht. cbn [JS.or_empty].
    destruct (List.find (fun k => String.eqb (digitsOf k) (digitsOf quality))
                (QualityMap.keys mp4Urls)) as [mk|] eqn:Ef.
    + apply List.find_some in Ef as [Hmk _].
      destruct (get_of_key mp4Urls mk Hmk) as (u & Hg & Hin).
      rewrite Forall_forall in Hwf.
      destruct (Hwf (mk, u)) as [Hk Hu]; [apply list_elem_of_In, Hin|].
      cbn in Hk, Hu.
      assert (Htk : JS.truthy (Some mk) = true)
        by (destruct mk; [contradiction | reflexivity]).
      rewrite Htk. cbn [JS.or_empty].
      assert (Htv : truthyValue (QualityMap.get mp4Urls mk)
                    = Some (QualityMap.Url u)).
      { apply truthyValue_Some. split; [exact Hg|]. intros [= ->].
        apply Hu. reflexivity. }
      rewrite Htv. eexists; reflexivity.
    + exfalso. apply Exists_exists in Hex as (k & Hk & Hd).
      apply list_elem_of_In in Hk.
      pose proof (List.find_none _ _ Ef k Hk) as Hn. cbn in Hn.
      rewrite Hd, String.eqb_refl in Hn. discriminate.
  - intros Hi Hk. unfold getMp4Url, QualityMap.get.
    destruct (List.find (fun e => String.eqb (fst e) quality) mp4Urls)
      as [[k' u']|] eqn:E.
    + exfalso. apply List.find_some in E as [Hin He].
      apply String.eqb_eq in He. cbn in He. subst k'.
      apply Hk. apply List.in_map_iff. exists (quality, u').
      split; [reflexivity | exact Hin].
    + rewrite Hi. reflexivity.
Qed.

Lemma list_includes_In (l : list string) (q : string) :
  list_includes l q = true <-> In q l.
Proof.
  unfold list_includes. rewrite List.existsb_exists. split.
  - intros (x & Hx & He). apply String.eqb_eq in He. subst. exact Hx.
  - intros H. exists q. split; [exact H | apply String.eqb_refl].
Qed.

(** X19. The initial quality of a file source is always one of its
    labels when it has any: the declared quality when that is a
    (non-empty) label; else 720p when that is a label; else the label in
    the middle of the list, at index half the length, or the first label
    when the middle one is the empty string. *)
Theorem initialQuality_is_a_label (quality : option string)
    (qualities : list string) :
  qualities <> [] ->
  In (initialQuality quality qualities) qualities
  /\ (forall q, quality = Some q -> q <> "" -> In q qualities ->
        initialQuality quality qualities = q)
  /\ ((forall q, quality = Some q -> q <> "" -> ~ In q qualities) ->
      In "720p" qualities -> initialQuality quality qualities = "720p")
  /\ ((forall q, quality = Some q -> q <> "" -> ~ In q qualities) ->
      ~ In "720p" qualities ->
      exists first middle,
        head qualities = Some first
        /\ qualities !! (length qualities / 2)%nat = Some middle
        /\ initialQuality quality qualities
           = if String.eqb middle "" then first else middle).
Proof.
  intros Hne.
  assert (Hdecl : (forall q, quality = Some q -> q <> "" -> ~ In q qualities) ->
                  JS.truthy quality
                  && list_includes qualities (JS.or_empty quality) = false).
  { intros Hno. destruct quality as [[|c q]|]; [reflexivity| |reflexivity].
    cbn [JS.or_empty JS.truthy andb].
    destruct (list_includes qualities (String c q)) eqn:Ei; [|reflexivity].
    apply list_includes_In in Ei.
    destruct (Hno (String c q) eq_refl ltac:(discriminate) Ei). }
  assert (Hmid : exists first middle,
             head qualities = Some first
             /\ qualities !! (length qualities / 2)%nat = Some middle).
  { destruct qualities as [|q0 rest] eqn:Eq; [contradiction|].
    rewrite <- Eq.
    assert (Hlt : (length qualities / 2 < length qualities)%nat).
    { apply Nat.div_lt; [rewrite Eq; cbn; lia | lia]. }
    apply lookup_lt_is_Some in Hlt as [m Hm].
    exists q0, m. split; [rewrite Eq; reflexivity | exact Hm]. }
  assert (Hthird : JS.truthy quality
                   && list_includes qualities (JS.or_empty quality) = false ->
                   list_includes qualities "720p" = false ->
                   forall first middle,
                     head qualities = Some first ->
                     qualities !! (length qualities / 2)%nat = Some middle ->
                     initialQuality quality qualities
                     = if String.eqb middle "" then first else middle).
  { intros E1 E2 first middle Hf Hm. unfold initialQuality.
    rewrite E1, E2.
    destruct qualities as [|q0 rest]; [discriminate|].
    change (0 <? length (q0 :: rest))%nat with true. cbv iota.
    rewrite Hm. cbn in Hf. injection Hf as <-.
    destruct middle as [|c m']; reflexivity. }
  split; [|split; [|split]].
  - clear Hdecl.
    destruct (JS.truthy quality && list_includes qualities (JS.or_empty quality))
      eqn:E1.
    { unfold initialQuality. rewrite E1.
      apply andb_true_iff in E1 as [_ Hi]. apply list_includes_In, Hi. }
    destruct (list_includes qualities "720p") eqn:E2.
    { unfold initialQuality. rewrite E1, E2. apply list_includes_In, E2. }
    destruct Hmid as (first & middle & Hf & Hm).
    rewrite (Hthird eq_refl eq_refl first middle Hf Hm).
    destruct (String.eqb middle "").
    + destruct qualities; [discriminate|]. cbn in Hf. injection Hf as <-.
      left. reflexivity.
    + apply list_elem_of_In. eapply list_elem_of_lookup_2. exact Hm.
  - intros q -> Hq Hin. unfold initialQuality. cbn [JS.or_empty].
    assert (Ht : JS.truthy (Some q) = true)
      by (destruct q; [contradiction | reflexivity]).
    rewrite Ht, (proj2 (list_includes_In qualities q) Hin). reflexivity.
  - intros Hno H720. unfold initialQuality.
    rewrite (Hdecl Hno), (proj2 (list_includes_In qualities "720p") H720).
    reflexivity.
  - intros Hno H720. destruct Hmid as (first & middle & Hf & Hm).
    exists first, middle. split; [exact Hf|]. split; [exact Hm|].
    apply Hthird; [apply Hdecl, Hno | | exact Hf | exact Hm].
    destruct (list_includes qualities "720p") eqn:E; [|reflexivity].
    apply list_includes_In in E. contradiction.
Qed.

Lemma getMp4Url_truthy (mp4Urls : QualityMap.t) (quality : string)
    (w : QualityMap.value) :
  getMp4Url mp4Urls quality = Some w -> truthyValue (Some w) = Some w.
Proof.
  intros H. apply truthyValue_Some. split; [reflexivity|].
  destruct (getMp4Url_sound_aux _ _ _ H)
    as [(u & k & -> & Hne & _)|(name & -> & _)]; [|discriminate].
  intros [= ->]. apply Hne. reflexivity.
Qed.

(** X20. What the player loads for a file source. With a non-empty quality
    map: what [getMp4Url] finds for the current quality when it finds
    something, and otherwise the first URL of the map when that URL is not
    empty (nothing when it is); the source's own url is not used. Without
    a map, or with an empty one: the source's own url when it is not
    empty. A URL that is loaded is never empty and comes from the map when
    the map is not empty. *)
Theorem mp4PlaybackUrl_origin (url : option string)
    (quality_urls : option QualityMap.t) (currentQuality : string) :
  match quality_urls with
  | Some (e :: q) =>
      (forall w, getMp4Url (e :: q) currentQuality = Some w ->
         mp4PlaybackUrl url quality_urls currentQuality = Some w)
      /\ (getMp4Url (e :: q) currentQuality = None ->
          mp4PlaybackUrl url quality_urls currentQuality
          = if String.eqb (snd e) "" then None
            else Some (QualityMap.Url (snd e)))
  | _ =>
      mp4PlaybackUrl url quality_urls currentQuality
      = match url with
        | Some u => if String.eqb u "" then None else Some (QualityMap.Url u)
        | None => None
        end
  end
  /\ (forall u,
        mp4PlaybackUrl url quality_urls currentQuality
        = Some (QualityMap.Url u) ->
        u <> ""
        /\ match quality_urls with
           | Some (e :: q) => In u (QualityMap.values (e :: q))
           | _ => url = Some u
           end).
Proof.
  assert (Hurl : forall o : option string,
             truthyValue (QualityMap.Url <$> o)
             = match o with
               | Some u => if String.eqb u "" then None
                           else Some (QualityMap.Url u)
               | None => None
               end).
  { intros [[|c u]|]; reflexivity. }
  assert (Hfrom : forall (o : option string) u,
             truthyValue (QualityMap.Url <$> o) = Some (QualityMap.Url u) ->
             u <> "" /\ o = Some u).
  { intros o u H. apply truthyValue_Some in H as [Ho Hne].
    destruct o as [u0|]; [|discriminate]. cbn in Ho. injection Ho as ->.
    split; [|reflexivity]. intros ->. apply Hne. reflexivity. }
  unfold mp4PlaybackUrl. destruct quality_urls as [[|e q]|].
  - cbn [QualityMap.keys List.map length Nat.ltb Nat.leb].
    split; [apply Hurl | apply Hfrom].
  - change (0 <? length (QualityMap.keys (e :: q)))%nat with true. cbv iota.
    split; [split|].
    + intros w Hw. rewrite Hw. apply (getMp4Url_truthy _ _ _ Hw).
    + intros Hn. rewrite Hn. cbn [QualityMap.values List.map head].
      apply (Hurl (Some (snd e))).
    + intros u.
      destruct (getMp4Url (e :: q) currentQuality) as [w|] eqn:Eg.
      * rewrite (getMp4Url_truthy _ _ _ Eg). intros [= ->].
        destruct (getMp4Url_sound_aux _ _ _ Eg)
          as [(u' & k & [= <-] & Hne & Hin & _)|(name & Hw & _)];
          [|discriminate].
        split; [exact Hne|]. apply List.in_map_iff. exists (k, u).
        split; [reflexivity | exact Hin].
      * cbn [QualityMap.values List.map head]. intros H.
        destruct (Hfrom (Some (snd e)) u H) as [Hne [= <-]].
        split; [exact Hne | left; reflexivity].
  - split; [apply Hurl | apply Hfrom].
Qed.

End QualityChoice.

Lemma getMp4Url_found_iff_digits_witness :
  let m := [ ("1080p", "https://cdn.example/1080.mp4");
             ("720", "https://cdn.example/720.mp4") ] in
  getMp4Url m "480p" = None
  /\ is_Some (getMp4Url m "720p")
  /\ getMp4Url m "constructor" = Some (QualityMap.Inherited "constructor").
Proof.
  intros m. destruct (getMp4Url_found_iff_digits m "480p") as (Hnone & _).
  destruct (getMp4Url_found_iff_digits m "720p") as (_ & Hsome & _).
  destruct (getMp4Url_found_iff_digits m "constructor") as (_ & _ & Hproto).
  split; [|split].
  - apply Hnone; [|reflexivity|reflexivity].
    repeat constructor; vm_compute; discriminate.
  - apply Hsome; [discriminate | |].
    + repeat constructor; cbn; discriminate.
    + right. left. reflexivity.
  - apply Hproto; [reflexivity|].
    cbn. intros [H|[H|[]]]; discriminate H.
Defined.

Lemma initialQuality_is_a_label_witness :
  In (initialQuality (Some "4k") ["1080p"; "480p"; "360p"])
     ["1080p"; "480p"; "360p"]
  /\ initialQuality (Some "480p") ["1080p"; "720p"; "480p"] = "480p"
  /\ initialQuality (Some "4k") ["1080p"; "480p"; "360p"; "240p"] = "360p".
Proof.
  destruct (initialQuality_is_a_label (Some "4k") ["1080p"; "480p"; "360p"]
              ltac:(discriminate)) as [Hin _].
  destruct (initialQuality_is_a_label (Some "480p") ["1080p"; "720p"; "480p"]
              ltac:(discriminate)) as (_ & Hdecl & _).
  destruct (initialQuality_is_a_label (Some "4k")
              ["1080p"; "480p"; "360p"; "240p"] ltac:(discriminate))
    as (_ & _ & _ & Hmid).
  split; [exact Hin|]. split.
  - apply (Hdecl "480p"); [reflexivity | discriminate |].
    right. right. left. reflexivity.
  - destruct Hmid as (first & middle & Hf & Hm & Hq).
    + intros q [= <-] _ Hin4.
      cbn in Hin4. repeat (destruct Hin4 as [Hin4|Hin4]; [discriminate|]).
      exact Hin4.
    + intros H720. cbn in H720.
      repeat (destruct H720 as [H720|H720]; [discriminate|]). exact H720.
    + cbn in Hm. injection Hm as <-. rewrite Hq. reflexivity.
Defined.

Lemma mp4PlaybackUrl_origin_witness :
  let m := [ ("1080p", "https://cdn.example/1080.mp4");
             ("720p", "https://cdn.example/720.mp4") ] in
  mp4PlaybackUrl (Some "https://cdn.example/plain.mp4") (Some m) "720"
  = Some (QualityMap.Url "https://cdn.example/720.mp4")
  /\ mp4PlaybackUrl (Some "https://cdn.example/plain.mp4") (Some m) "480p"
     = Some (QualityMap.Url "https://cdn.example/1080.mp4").
Proof.
  intros m.
  destruct (mp4PlaybackUrl_origin (Some "https://cdn.example/plain.mp4")
              (Some m) "720") as [[Hfound _] _].
  destruct (mp4PlaybackUrl_origin (Some "https://cdn.example/plain.mp4")
              (Some m) "480p") as [[_ Hfirst] _].
  split.
  - apply Hfound. reflexivity.
  - rewrite Hfirst; reflexivity.
Defined.

(** ** The raw source list *)

(** X21. An empty [videoSources] array hides [src]: the player then has no
    source and the default-source effect leaves its state alone. Without
    [videoSources], a non-empty [src] gives exactly one source, the default
    one, whose kind is the [type] prop whatever the URL looks like (an
    ["embed"] prop resolving to ["iframe"]); without either there is no
    source. *)
Theorem rawSources_fallback (src : option string) (type : StreamType)
    (accessType : AccessType) (st : PlayerState) :
  (sources (Some []) src type accessType = []
   /\ initDefaultSource (sources (Some []) src type accessType) st = st)
  /\ (JS.truthy src = true ->
      exists s,
        sources None src type accessType = [s]
        /\ defaultSource (sources None src type accessType) = Some s
        /\ VideoSource.id s = "default"
        /\ VideoSource.server_name s = "Default"
        /\ VideoSource.type s
           = match type with Embed => Iframe | k => k end)
  /\ (JS.truthy src = false -> sources None src type accessType = []).
Proof.
  split; [split; reflexivity|]. split.
  - intros Hsrc. unfold sources, rawSources. rewrite Hsrc.
    eexists. split; [reflexivity|].
    split; [reflexivity|]. split; [reflexivity|]. split; [reflexivity|].
    unfold normalizeSource. cbn [VideoSource.type RawSource.source_type
                                  RawSource.url].
    destruct type; reflexivity.
  - intros Hsrc. unfold sources, rawSources. rewrite Hsrc. reflexivity.
Qed.

Lemma rawSources_fallback_witness :
  exists s,
    sources None (Some "https://cdn.example/clip.m3u8") Mp4 Free = [s]
    /\ VideoSource.type s = Mp4.
Proof.
  destruct (rawSources_fallback (Some "https://cdn.example/clip.m3u8") Mp4
              Free initialState) as (_ & Hone & _).
  destruct (Hone eq_refl) as (s & Hs & _ & _ & _ & Hty).
  exists s. split; [exact Hs | exact Hty].
Defined.
